(** * BlackFrameDetector: a shallow embedding of [black_frame_detector.py]

    The development follows the Python module top-down:

    - [PyText]   text buffers as lists of characters, with the [str]
                 methods the module calls ([split], [rstrip], [in]);
    - [PyNum]    Python [int] as [Z], Python [float] as IEEE-754 binary64
                 (Rocq's primitive floats), with [int / int], [int(float)]
                 and [float(numeral)];
    - [Model]    the data classes [BlackFrameHit] and [BlackRange], the
                 three regular expressions, [build_ranges], and the event
                 handlers of [BlackFrameDetectorV2] as transformers of an
                 explicit window state.

    Exceptions raised inside a Qt slot are kept explicit: a handler returns
    the state reached together with the exception, if one escaped.

    After the model come the notions the properties are stated with
    (runs of consecutive frames, what it means to record a failure, sample
    windows reached through the slots) and then the properties themselves:
    the line splitter, range building, progress and ETA, the probe report,
    and the sequencing of a batch. *)

From Stdlib Require Import ZArith List Bool Lia Floats Ascii String.
From Stdlib Require Import Sorting.Sorted.
From stdpp Require Import base option gmap strings.
Import ListNotations.

#[local] Set Warnings "-register-all".
#[local] Open Scope Z_scope.
#[local] Open Scope list_scope.

(* ===================================================================== *)
(** ** Text *)
(* ===================================================================== *)

Module PyText.

(** A Python [str], read as the list of its characters.  The module only
    ever inspects ASCII characters (line feed, carriage return, digits,
    a few keywords), so characters are modelled as [ascii]. *)
Definition str := list ascii.

Definition txt (s : string) : str := list_ascii_of_string s.

Definition NL : ascii := "010"%char.
Definition CR : ascii := "013"%char.

(** [c in s] for a one-character [c]. *)
Definition contains (c : ascii) (s : str) : bool :=
  existsb (Ascii.eqb c) s.

(** [s.split(sep)] for a one-character separator: never the empty list,
    [n] separators give [n + 1] parts. *)
Fixpoint split_on (sep : ascii) (s : str) : list str :=
  match s with
  | [] => [[]]
  | c :: s' =>
      if Ascii.eqb c sep then [] :: split_on sep s'
      else match split_on sep s' with
           | p :: ps => (c :: p) :: ps
           | [] => [[c]]
           end
  end.

(** [s.rstrip(ch)]: every trailing occurrence of [ch] is removed. *)
Fixpoint rstrip (ch : ascii) (s : str) : str :=
  match s with
  | [] => []
  | c :: s' =>
      match rstrip ch s' with
      | [] => if Ascii.eqb c ch then [] else [c]
      | r => c :: r
      end
  end.

(** Truth value of a [str]: non-empty. *)
Definition truthy (s : str) : bool :=
  match s with [] => false | _ => true end.

(** [parts[:-1]] and [parts[-1]] of a non-empty list of parts. *)
Definition all_but_last (parts : list str) : list str := removelast parts.
Definition last_part (parts : list str) : str := List.last parts [].

(** [BlackFrameDetectorV2._split_complete_lines]. *)
Definition _split_complete_lines (buf : str) : list str * str :=
  if negb (contains NL buf) then ([], buf)
  else
    let parts := split_on NL buf in
    let complete := all_but_last parts in
    let remainder := last_part parts in
    (map (rstrip CR) (List.filter truthy complete), remainder).

(** One [readyRead] delivery on a stream: [buf += chunk] followed by
    [lines, buf = _split_complete_lines(buf)]. *)
Definition feed (buf chunk : str) : list str * str :=
  _split_complete_lines (buf ++ chunk).

(** A whole sequence of deliveries; the lines of all deliveries in order
    and the buffer left at the end. *)
Fixpoint feed_all (buf : str) (chunks : list str) : list str * str :=
  match chunks with
  | [] => ([], buf)
  | c :: cs =>
      let '(ls, b) := feed buf c in
      let '(ls', b') := feed_all b cs in
      (ls ++ ls', b')
  end.

(** The text a consumer gets back from lines and remainder: every line
    followed by a line feed, then the remainder. *)
Definition rejoin (lines : list str) (remainder : str) : str :=
  List.concat (map (fun l => l ++ [NL]) lines) ++ remainder.

(** A segment that the splitter hands over unchanged: not empty and not
    ending in a carriage return. *)
Definition kept_verbatim (l : str) : bool :=
  truthy l && negb (Ascii.eqb (List.last l NL) CR).

End PyText.

(* ===================================================================== *)
(** ** Numbers and exceptions *)
(* ===================================================================== *)

Module PyNum.

(** The built-in exceptions the modelled code can raise. *)
Inductive exn : Set :=
| ZeroDivisionError
| OverflowError
| ValueError
| TypeError
| KeyError
| IndexError
| AttributeError
| JSONDecodeError.

(** A computation that returns or raises. *)
Inductive result (A : Type) : Type :=
| Ok (a : A)
| Raise (e : exn).
Arguments Ok {A} a.
Arguments Raise {A} e.

#[global] Instance result_ret : MRet result := fun A a => Ok a.

#[global] Instance result_bind : MBind result := fun A B k r =>
  match r with
  | Ok a => k a
  | Raise e => Raise e
  end.

#[global] Instance result_fmap : FMap result := fun A B f r =>
  match r with
  | Ok a => Ok (f a)
  | Raise e => Raise e
  end.

(** An exact integer as an (unnormalised) binary float. *)
Definition Z2SF (z : Z) : spec_float :=
  match z with
  | Z0 => S754_zero false
  | Zpos p => S754_finite false p 0
  | Zneg p => S754_finite true p 0
  end.

(** [a / b] on two [int]s: the correctly rounded quotient. *)
Definition int_truediv (a b : Z) : result float :=
  if b =? 0 then Raise ZeroDivisionError
  else
    match SFdiv prec emax (Z2SF a) (Z2SF b) with
    | S754_infinity _ => Raise OverflowError
    | q => Ok (SF2Prim q)
    end.

(** [float(n)] for an [int], also the implicit conversion of an [int]
    operand that meets a [float]. *)
Definition float_of_int (n : Z) : result float :=
  match binary_normalize prec emax n 0 false with
  | S754_infinity _ => Raise OverflowError
  | q => Ok (SF2Prim q)
  end.

(** [float(len(xs))]: a length is far below 2^53, the conversion is
    exact and cannot overflow. *)
Definition float_of_len (n : nat) : float :=
  SF2Prim (binary_normalize prec emax (Z.of_nat n) 0 false).

(** [int(x)] for a [float]: truncation towards zero. *)
Definition int_of_float (x : float) : result Z :=
  match Prim2SF x with
  | S754_zero _ => Ok 0
  | S754_finite s m e =>
      let mag := Z.shiftl (Zpos m) e in
      Ok (if s then - mag else mag)
  | S754_infinity _ => Raise OverflowError
  | S754_nan => Raise ValueError
  end.

(** [x / y] on two [float]s. *)
Definition float_truediv (x y : float) : result float :=
  if PrimFloat.eqb y 0 then Raise ZeroDivisionError
  else Ok (PrimFloat.div x y).

(** Truth value of a [float]: different from zero. *)
Definition float_truthy (x : float) : bool := negb (PrimFloat.eqb x 0).

(** The two-argument built-ins [min(a, b)] and [max(a, b)]: the first
    argument is kept unless the second is strictly better. *)
Definition py_min2 (a b : float) : float := if PrimFloat.ltb b a then b else a.
Definition py_max2 (a b : float) : float := if PrimFloat.ltb a b then b else a.

(** [sum(xs)]: left to right from the [int] zero. *)
Definition py_sum (xs : list float) : float :=
  fold_left PrimFloat.add xs 0%float.

(** [min(xs)] on a non-empty list: the first of the least elements. *)
Definition py_min (x : float) (xs : list float) : float :=
  fold_left py_min2 xs x.

(** Value of a string of decimal digits, most significant first; a
    character that is not a digit counts as zero. *)
Definition digit_value (c : ascii) : Z :=
  let n := Z.of_nat (nat_of_ascii c) in
  if (48 <=? n) && (n <=? 57) then n - 48 else 0.

Definition int_of_digits (ds : list ascii) : Z :=
  fold_left (fun acc c => 10 * acc + digit_value c) ds 0.

(** [float(s)] for a numeral [ip] or [ip.fp] written with decimal
    digits: the binary64 value nearest to the decimal one. *)
Definition float_of_decimal (ip fp : list ascii) : float :=
  SF2Prim (SFdiv prec emax
             (Z2SF (int_of_digits (ip ++ fp)))
             (Z2SF (10 ^ Z.of_nat (length fp)))).

End PyNum.

(* ===================================================================== *)
(** ** The detector *)
(* ===================================================================== *)

Module Model.
Import PyText PyNum.

(** *** Data classes *)

Record BlackFrameHit : Type := mkHit {
  frame : Z;
  time_s : option float;
  pblack : option float;
  pts : option Z
}.

Record BlackRange : Type := mkRange {
  start_frame : Z;
  end_frame : Z;
  start_time_s : option float;
  end_time_s : option float;
  length_frames : Z;
  avg_pblack : option float;
  min_pblack : option float
}.

(** *** Range building *)

(** [sorted(hits, key=lambda h: h.frame)]: the stable sort by frame.
    A hit is placed in front of the first later hit whose frame is not
    smaller, so hits with equal frames keep their order. *)
Fixpoint insert_by_frame (h : BlackFrameHit) (l : list BlackFrameHit)
  : list BlackFrameHit :=
  match l with
  | [] => [h]
  | x :: l' =>
      if frame h <=? frame x then h :: x :: l'
      else x :: insert_by_frame h l'
  end.

Definition sorted_by_frame (hits : list BlackFrameHit) : list BlackFrameHit :=
  fold_right insert_by_frame [] hits.

(** [[h.pblack for h in group if h.pblack is not None]]. *)
Fixpoint pvals_of (group : list BlackFrameHit) : list float :=
  match group with
  | [] => []
  | h :: g =>
      match pblack h with
      | Some p => p :: pvals_of g
      | None => pvals_of g
      end
  end.

(** The nested function [finalize] of [build_ranges]. *)
Definition finalize (min_run_frames : Z) (group : list BlackFrameHit)
  : option BlackRange :=
  match group with
  | [] => None
  | start :: _ =>
      let end_ := List.last group start in
      let length := frame end_ - frame start + 1 in
      if length <? min_run_frames then None
      else
        let pvals := pvals_of group in
        let avg_pb :=
          match pvals with
          | [] => None
          | _ :: _ =>
              Some (PrimFloat.div (py_sum pvals)
                                  (float_of_len (List.length pvals)))
          end in
        let min_pb :=
          match pvals with
          | [] => None
          | p :: ps => Some (py_min p ps)
          end in
        Some {| start_frame := frame start;
                end_frame := frame end_;
                start_time_s := time_s start;
                end_time_s := time_s end_;
                length_frames := length;
                avg_pblack := avg_pb;
                min_pblack := min_pb |}
  end.

(** [ranges.append(r)] under [if r:]. *)
Definition append_range (ranges : list BlackRange) (r : option BlackRange)
  : list BlackRange :=
  match r with
  | Some x => ranges ++ [x]
  | None => ranges
  end.

(** The [for h in hits_sorted[1:]] loop, on its two variables [cur] and
    [ranges].  [cur] is never empty; [cur[-1]] is read with [h] as a
    filler for the impossible empty case. *)
Fixpoint ranges_loop (min_run_frames : Z) (rest cur : list BlackFrameHit)
    (ranges : list BlackRange)
  : list BlackFrameHit * list BlackRange :=
  match rest with
  | [] => (cur, ranges)
  | h :: rest' =>
      let prev := List.last cur h in
      if frame h =? frame prev + 1
      then ranges_loop min_run_frames rest' (cur ++ [h]) ranges
      else ranges_loop min_run_frames rest' [h]
             (append_range ranges (finalize min_run_frames cur))
  end.

Definition build_ranges (hits : list BlackFrameHit) (min_run_frames : Z)
  : list BlackRange :=
  match hits with
  | [] => []
  | _ :: _ =>
      match sorted_by_frame hits with
      | [] => []
      | h0 :: tl =>
          let '(cur, ranges) := ranges_loop min_run_frames tl [h0] [] in
          append_range ranges (finalize min_run_frames cur)
      end
  end.

(** *** The regular expressions

    Each pattern is written out as the function that returns its groups
    for the first match the backtracking matcher finds. *)

Definition code (c : ascii) : nat := nat_of_ascii c.

(** [\d], [\s] and [\w], for the characters below 256. *)
Definition is_digit (c : ascii) : bool :=
  (48 <=? code c)%nat && (code c <=? 57)%nat.

Definition is_space (c : ascii) : bool :=
  ((9 <=? code c)%nat && (code c <=? 13)%nat)
  || ((28 <=? code c)%nat && (code c <=? 32)%nat)
  || (code c =? 133)%nat || (code c =? 160)%nat.

Definition is_word (c : ascii) : bool :=
  is_digit c
  || ((65 <=? code c)%nat && (code c <=? 90)%nat)
  || ((97 <=? code c)%nat && (code c <=? 122)%nat)
  || (code c =? 95)%nat.

(** The text after a literal prefix. *)
Fixpoint strip_prefix (p s : str) : option str :=
  match p, s with
  | [], _ => Some s
  | _ :: _, [] => None
  | a :: p', b :: s' => if Ascii.eqb a b then strip_prefix p' s' else None
  end.

(** Greedy [\d*]: the longest run of digits and what follows it. *)
Fixpoint span_digits (s : str) : str * str :=
  match s with
  | c :: s' =>
      if is_digit c
      then let '(ds, tl) := span_digits s' in (c :: ds, tl)
      else ([], s)
  | [] => ([], [])
  end.

(** [PROGRESS_OUT_TIME_MS_RE.match(line)], as [m.group(1)]. *)
Definition match_out_time_ms (line : str) : option str :=
  match strip_prefix (txt "out_time_ms=") line with
  | Some rest =>
      let '(ds, tl) := span_digits rest in
      if truthy ds && forallb is_space tl then Some ds else None
  | None => None
  end.

(** [PROGRESS_END_RE.match(line)], as a truth value. *)
Definition match_progress_end (line : str) : bool :=
  match strip_prefix (txt "progress=end") line with
  | Some tl => forallb is_space tl
  | None => false
  end.

(** [\b] between the character before the position and the text at it. *)
Definition word_boundary (prev : option ascii) (s : str) : bool :=
  xorb (match prev with Some c => is_word c | None => false end)
       (match s with c :: _ => is_word c | [] => false end).

(** The lazy scan [.*?\bKEY(\d+)]: the first position, not beyond a line
    feed, where the key stands at a word boundary and is followed by a
    digit.  Returns the digits and the text after them. *)
Fixpoint find_field (key : str) (prev : option ascii) (s : str)
  : option (str * str) :=
  let here :=
    if word_boundary prev s then
      match strip_prefix key s with
      | Some rest =>
          let '(ds, tl) := span_digits rest in
          if truthy ds then Some (ds, tl) else None
      | None => None
      end
    else None in
  match here with
  | Some r => Some r
  | None =>
      match s with
      | [] => None
      | c :: s' =>
          if Ascii.eqb c NL then None else find_field key (Some c) s'
      end
  end.

(** The optional [(?:\.\d+)?] after an integer part. *)
Definition span_fraction (s : str) : str * str :=
  match s with
  | c :: s' =>
      if Ascii.eqb c "."%char then
        let '(fs, tl) := span_digits s' in
        if truthy fs then (fs, tl) else ([], s)
      else ([], s)
  | [] => ([], s)
  end.

(** The groups of [BLACKFRAME_LINE_RE]: [frame], [pblack], [pts], [t]. *)
Record blackframe_groups : Type := mkGroups {
  g_frame : str;
  g_pblack : option (str * str);
  g_pts : option str;
  g_t : option (str * str)
}.

(** An optional group that holds a decimal numeral. *)
Definition opt_decimal (key : str) (prev : ascii) (s : str)
  : option (str * str) * ascii * str :=
  match find_field key (Some prev) s with
  | Some (ip, r) =>
      let '(fp, r') := span_fraction r in
      (Some (ip, fp), List.last (ip ++ fp) prev, r')
  | None => (None, prev, s)
  end.

(** An optional group that holds an integer numeral. *)
Definition opt_integer (key : str) (prev : ascii) (s : str)
  : option str * ascii * str :=
  match find_field key (Some prev) s with
  | Some (ds, r) => (Some ds, List.last ds prev, r)
  | None => (None, prev, s)
  end.

(** The pattern tried at one start position. *)
Definition blackframe_at (s : str) : option blackframe_groups :=
  match strip_prefix (txt "Parsed_blackframe") s with
  | None => None
  | Some rest =>
      match find_field (txt "frame:") (Some "e"%char) rest with
      | None => None
      | Some (fr, r1) =>
          let '(pb, c2, r2) := opt_decimal (txt "pblack:") (List.last fr "0"%char) r1 in
          let '(ps, c3, r3) := opt_integer (txt "pts:") c2 r2 in
          let '(tm, _, _) := opt_decimal (txt "t:") c3 r3 in
          Some (mkGroups fr pb ps tm)
      end
  end.

(** [BLACKFRAME_LINE_RE.search(line)]: the leftmost start that matches. *)
Fixpoint blackframe_search (s : str) : option blackframe_groups :=
  match blackframe_at s with
  | Some g => Some g
  | None =>
      match s with
      | [] => None
      | _ :: s' => blackframe_search s'
      end
  end.

(** [BlackFrameDetectorV2._parse_blackframe_line]. *)
Definition _parse_blackframe_line (line : str) : option BlackFrameHit :=
  match blackframe_search line with
  | None => None
  | Some m =>
      let frame := int_of_digits (g_frame m) in
      let pblack := (fun '(ip, fp) => float_of_decimal ip fp) <$> g_pblack m in
      let pts := int_of_digits <$> g_pts m in
      let t := (fun '(ip, fp) => float_of_decimal ip fp) <$> g_t m in
      Some (mkHit frame t pblack pts)
  end.

(** *** The probe report

    [json.loads] yields a value of this shape; a dictionary is kept as
    its items, each key once. *)

Inductive json : Type :=
| JNull
| JBool (b : bool)
| JInt (n : Z)
| JFloat (x : float)
| JStr (s : str)
| JList (l : list json)
| JDict (d : list (str * json)).

Fixpoint dict_lookup (k : str) (d : list (str * json)) : option json :=
  match d with
  | [] => None
  | (k', v) :: d' => if bool_decide (k = k') then Some v else dict_lookup k d'
  end.

(** Truth value of a decoded value, as [or] and [if] read it. *)
Definition json_truthy (v : json) : bool :=
  match v with
  | JNull => false
  | JBool b => b
  | JInt n => negb (n =? 0)
  | JFloat x => float_truthy x
  | JStr s => truthy s
  | JList l => match l with [] => false | _ => true end
  | JDict d => match d with [] => false | _ => true end
  end.

(** [v.get(k, default)]: only a dictionary has the method. *)
Definition py_get (v : json) (k : str) (dflt : json) : result json :=
  match v with
  | JDict d => Ok (default dflt (dict_lookup k d))
  | _ => Raise AttributeError
  end.

(** [v[k]] for a text key. *)
Definition py_item (v : json) (k : str) : result json :=
  match v with
  | JDict d =>
      match dict_lookup k d with
      | Some x => Ok x
      | None => Raise KeyError
      end
  | _ => Raise TypeError
  end.

(** [v[0]]. *)
Definition py_first (v : json) : result json :=
  match v with
  | JList (x :: _) => Ok x
  | JList [] => Raise IndexError
  | JStr (c :: _) => Ok (JStr [c])
  | JStr [] => Raise IndexError
  | JDict _ => Raise KeyError
  | _ => Raise TypeError
  end.

(** [a or b], with [b] evaluated only when [a] is false. *)
Definition py_or (a : json) (b : result json) : result json :=
  if json_truthy a then Ok a else b.

(** [rate.split("/")]: only text has the method. *)
Definition py_split_slash (v : json) : result (list str) :=
  match v with
  | JStr s => Ok (split_on "/"%char s)
  | _ => Raise AttributeError
  end.

(** [num, den = parts]. *)
Definition unpack2 (parts : list str) : result (str * str) :=
  match parts with
  | [a; b] => Ok (a, b)
  | _ => Raise ValueError
  end.

(** [s.strip()]. *)
Fixpoint lstrip_space (s : str) : str :=
  match s with
  | c :: s' => if is_space c then lstrip_space s' else s
  | [] => []
  end.

Definition strip_space (s : str) : str :=
  rev (lstrip_space (rev (lstrip_space s))).

(** *** The window

    The attributes of [BlackFrameDetectorV2] keep their names.  A widget
    is kept as the data of the last call made on it (the value, range and
    text of the progress bar, the lines of the status label, the rows of
    the tables); styling and the enabling of controls are left out. *)

(** A [QProcess] created for a file, and whether [kill()] was called. *)
Record process : Type := mkProcess {
  proc_path : string;
  proc_killed : bool
}.

(** The texts given to [progress.setFormat]; [Path(path).name] is kept
    as the path, and the ETA text as the percentage and the remaining
    seconds it is rendered from. *)
Inductive progress_text : Type :=
| FmtReady
| FmtProbing (idx total : nat) (path : string)
| FmtAnalyzing (idx total : nat) (path : string) (percent : bool)
| FmtFinishing (idx total : nat) (path : string)
| FmtEta (idx total : nat) (path : string) (pct : Z) (remaining : float)
| FmtCancelled (completed total : nat)
| FmtSummary (files frames nranges : nat) (duration elapsed : option float).

(** The lines appended to the status label. *)
Inductive status_line : Type :=
| LineFailed (path : string) (label : string)
| LineResult (path : string) (count range_count : nat)
| LineSummary (files frames nranges : nat) (duration elapsed : option float).

(** An item of the file list: its path (the user-role data), the text
    shown after the file name, and whether it is painted as failed. *)
Inductive item_note : Type :=
| NotePlain
| NoteCount (path : string) (count : nat)
| NoteFailed (label : string).

Record list_item : Type := mkItem {
  item_path : string;
  item_note_of : item_note;
  item_red : bool
}.

#[projections(primitive)]
Record state : Type := mkState {
  probe_proc : option process;
  ffmpeg_proc : option process;
  _stderr_buf : str;
  _stdout_buf : str;
  video_duration_s : option float;
  video_fps : option float;
  _running : bool;
  _analysis_start_time : option float;
  _queue_start_time : option float;
  _total_video_duration_s : float;
  hits : list BlackFrameHit;
  ranges : list BlackRange;
  _pending_hits : list BlackFrameHit;
  _file_queue : list string;
  _current_queue_index : nat;
  _queue_active : bool;
  all_hits : gmap string (list BlackFrameHit);
  all_ranges : gmap string (list BlackRange);
  flush_timer : bool;
  progress_determinate : bool;
  progress_value : Z;
  progress_format : progress_text;
  status_label : list status_line;
  file_list : list list_item;
  frames_table : list (string * BlackFrameHit);
  ranges_table : list (string * BlackRange);
  export_frames_enabled : bool;
  export_ranges_enabled : bool;
  group_ranges_checkbox : bool;
  min_run_spin : Z
}.

(** Assignments to the attributes, one setter each. *)
Definition set_probe_proc (v : option process) (s : state) : state :=
  let '(mkState _ x1 x2 x3 x4 x5 x6 x7 x8 x9 x10 x11 x12 x13 x14 x15 x16 x17
      x18 x19 x20 x21 x22 x23 x24 x25 x26 x27 x28 x29) := s in
  mkState v x1 x2 x3 x4 x5 x6 x7 x8 x9 x10 x11 x12 x13 x14 x15 x16 x17 x18
    x19 x20 x21 x22 x23 x24 x25 x26 x27 x28 x29.

Definition set_ffmpeg_proc (v : option process) (s : state) : state :=
  let '(mkState x0 _ x2 x3 x4 x5 x6 x7 x8 x9 x10 x11 x12 x13 x14 x15 x16 x17
      x18 x19 x20 x21 x22 x23 x24 x25 x26 x27 x28 x29) := s in
  mkState x0 v x2 x3 x4 x5 x6 x7 x8 x9 x10 x11 x12 x13 x14 x15 x16 x17 x18
    x19 x20 x21 x22 x23 x24 x25 x26 x27 x28 x29.

Definition set_stderr_buf (v : str) (s : state) : state :=
  let '(mkState x0 x1 _ x3 x4 x5 x6 x7 x8 x9 x10 x11 x12 x13 x14 x15 x16 x17
      x18 x19 x20 x21 x22 x23 x24 x25 x26 x27 x28 x29) := s in
  mkState x0 x1 v x3 x4 x5 x6 x7 x8 x9 x10 x11 x12 x13 x14 x15 x16 x17 x18
    x19 x20 x21 x22 x23 x24 x25 x26 x27 x28 x29.

Definition set_stdout_buf (v : str) (s : state) : state :=
  let '(mkState x0 x1 x2 _ x4 x5 x6 x7 x8 x9 x10 x11 x12 x13 x14 x15 x16 x17
      x18 x19 x20 x21 x22 x23 x24 x25 x26 x27 x28 x29) := s in
  mkState x0 x1 x2 v x4 x5 x6 x7 x8 x9 x10 x11 x12 x13 x14 x15 x16 x17 x18
    x19 x20 x21 x22 x23 x24 x25 x26 x27 x28 x29.

Definition set_video_duration_s (v : option float) (s : state) : state :=
  let '(mkState x0 x1 x2 x3 _ x5 x6 x7 x8 x9 x10 x11 x12 x13 x14 x15 x16 x17
      x18 x19 x20 x21 x22 x23 x24 x25 x26 x27 x28 x29) := s in
  mkState x0 x1 x2 x3 v x5 x6 x7 x8 x9 x10 x11 x12 x13 x14 x15 x16 x17 x18
    x19 x20 x21 x22 x23 x24 x25 x26 x27 x28 x29.

Definition set_video_fps (v : option float) (s : state) : state :=
  let '(mkState x0 x1 x2 x3 x4 _ x6 x7 x8 x9 x10 x11 x12 x13 x14 x15 x16 x17
      x18 x19 x20 x21 x22 x23 x24 x25 x26 x27 x28 x29) := s in
  mkState x0 x1 x2 x3 x4 v x6 x7 x8 x9 x10 x11 x12 x13 x14 x15 x16 x17 x18
    x19 x20 x21 x22 x23 x24 x25 x26 x27 x28 x29.

Definition set_running (v : bool) (s : state) : state :=
  let '(mkState x0 x1 x2 x3 x4 x5 _ x7 x8 x9 x10 x11 x12 x13 x14 x15 x16 x17
      x18 x19 x20 x21 x22 x23 x24 x25 x26 x27 x28 x29) := s in
  mkState x0 x1 x2 x3 x4 x5 v x7 x8 x9 x10 x11 x12 x13 x14 x15 x16 x17 x18
    x19 x20 x21 x22 x23 x24 x25 x26 x27 x28 x29.

Definition set_analysis_start_time (v : option float) (s : state) : state :=
  let '(mkState x0 x1 x2 x3 x4 x5 x6 _ x8 x9 x10 x11 x12 x13 x14 x15 x16 x17
      x18 x19 x20 x21 x22 x23 x24 x25 x26 x27 x28 x29) := s in
  mkState x0 x1 x2 x3 x4 x5 x6 v x8 x9 x10 x11 x12 x13 x14 x15 x16 x17 x18
    x19 x20 x21 x22 x23 x24 x25 x26 x27 x28 x29.

Definition set_queue_start_time (v : option float) (s : state) : state :=
  let '(mkState x0 x1 x2 x3 x4 x5 x6 x7 _ x9 x10 x11 x12 x13 x14 x15 x16 x17
      x18 x19 x20 x21 x22 x23 x24 x25 x26 x27 x28 x29) := s in
  mkState x0 x1 x2 x3 x4 x5 x6 x7 v x9 x10 x11 x12 x13 x14 x15 x16 x17 x18
    x19 x20 x21 x22 x23 x24 x25 x26 x27 x28 x29.

Definition set_total_video_duration_s (v : float) (s : state) : state :=
  let '(mkState x0 x1 x2 x3 x4 x5 x6 x7 x8 _ x10 x11 x12 x13 x14 x15 x16 x17
      x18 x19 x20 x21 x22 x23 x24 x25 x26 x27 x28 x29) := s in
  mkState x0 x1 x2 x3 x4 x5 x6 x7 x8 v x10 x11 x12 x13 x14 x15 x16 x17 x18
    x19 x20 x21 x22 x23 x24 x25 x26 x27 x28 x29.

Definition set_hits (v : list BlackFrameHit) (s : state) : state :=
  let '(mkState x0 x1 x2 x3 x4 x5 x6 x7 x8 x9 _ x11 x12 x13 x14 x15 x16 x17
      x18 x19 x20 x21 x22 x23 x24 x25 x26 x27 x28 x29) := s in
  mkState x0 x1 x2 x3 x4 x5 x6 x7 x8 x9 v x11 x12 x13 x14 x15 x16 x17 x18
    x19 x20 x21 x22 x23 x24 x25 x26 x27 x28 x29.

Definition set_ranges (v : list BlackRange) (s : state) : state :=
  let '(mkState x0 x1 x2 x3 x4 x5 x6 x7 x8 x9 x10 _ x12 x13 x14 x15 x16 x17
      x18 x19 x20 x21 x22 x23 x24 x25 x26 x27 x28 x29) := s in
  mkState x0 x1 x2 x3 x4 x5 x6 x7 x8 x9 x10 v x12 x13 x14 x15 x16 x17 x18
    x19 x20 x21 x22 x23 x24 x25 x26 x27 x28 x29.

Definition set_pending_hits (v : list BlackFrameHit) (s : state) : state :=
  let '(mkState x0 x1 x2 x3 x4 x5 x6 x7 x8 x9 x10 x11 _ x13 x14 x15 x16 x17
      x18 x19 x20 x21 x22 x23 x24 x25 x26 x27 x28 x29) := s in
  mkState x0 x1 x2 x3 x4 x5 x6 x7 x8 x9 x10 x11 v x13 x14 x15 x16 x17 x18
    x19 x20 x21 x22 x23 x24 x25 x26 x27 x28 x29.

Definition set_file_queue (v : list string) (s : state) : state :=
  let '(mkState x0 x1 x2 x3 x4 x5 x6 x7 x8 x9 x10 x11 x12 _ x14 x15 x16 x17
      x18 x19 x20 x21 x22 x23 x24 x25 x26 x27 x28 x29) := s in
  mkState x0 x1 x2 x3 x4 x5 x6 x7 x8 x9 x10 x11 x12 v x14 x15 x16 x17 x18
    x19 x20 x21 x22 x23 x24 x25 x26 x27 x28 x29.

Definition set_current_queue_index (v : nat) (s : state) : state :=
  let '(mkState x0 x1 x2 x3 x4 x5 x6 x7 x8 x9 x10 x11 x12 x13 _ x15 x16 x17
      x18 x19 x20 x21 x22 x23 x24 x25 x26 x27 x28 x29) := s in
  mkState x0 x1 x2 x3 x4 x5 x6 x7 x8 x9 x10 x11 x12 x13 v x15 x16 x17 x18
    x19 x20 x21 x22 x23 x24 x25 x26 x27 x28 x29.

Definition set_queue_active (v : bool) (s : state) : state :=
  let '(mkState x0 x1 x2 x3 x4 x5 x6 x7 x8 x9 x10 x11 x12 x13 x14 _ x16 x17
      x18 x19 x20 x21 x22 x23 x24 x25 x26 x27 x28 x29) := s in
  mkState x0 x1 x2 x3 x4 x5 x6 x7 x8 x9 x10 x11 x12 x13 x14 v x16 x17 x18
    x19 x20 x21 x22 x23 x24 x25 x26 x27 x28 x29.

Definition set_all_hits (v : gmap string (list BlackFrameHit)) (s : state) : state :=
  let '(mkState x0 x1 x2 x3 x4 x5 x6 x7 x8 x9 x10 x11 x12 x13 x14 x15 _ x17
      x18 x19 x20 x21 x22 x23 x24 x25 x26 x27 x28 x29) := s in
  mkState x0 x1 x2 x3 x4 x5 x6 x7 x8 x9 x10 x11 x12 x13 x14 x15 v x17 x18
    x19 x20 x21 x22 x23 x24 x25 x26 x27 x28 x29.

Definition set_all_ranges (v : gmap string (list BlackRange)) (s : state) : state :=
  let '(mkState x0 x1 x2 x3 x4 x5 x6 x7 x8 x9 x10 x11 x12 x13 x14 x15 x16 _
      x18 x19 x20 x21 x22 x23 x24 x25 x26 x27 x28 x29) := s in
  mkState x0 x1 x2 x3 x4 x5 x6 x7 x8 x9 x10 x11 x12 x13 x14 x15 x16 v x18
    x19 x20 x21 x22 x23 x24 x25 x26 x27 x28 x29.

Definition set_flush_timer (v : bool) (s : state) : state :=
  let '(mkState x0 x1 x2 x3 x4 x5 x6 x7 x8 x9 x10 x11 x12 x13 x14 x15 x16
      x17 _ x19 x20 x21 x22 x23 x24 x25 x26 x27 x28 x29) := s in
  mkState x0 x1 x2 x3 x4 x5 x6 x7 x8 x9 x10 x11 x12 x13 x14 x15 x16 x17 v
    x19 x20 x21 x22 x23 x24 x25 x26 x27 x28 x29.

Definition set_progress_determinate (v : bool) (s : state) : state :=
  let '(mkState x0 x1 x2 x3 x4 x5 x6 x7 x8 x9 x10 x11 x12 x13 x14 x15 x16
      x17 x18 _ x20 x21 x22 x23 x24 x25 x26 x27 x28 x29) := s in
  mkState x0 x1 x2 x3 x4 x5 x6 x7 x8 x9 x10 x11 x12 x13 x14 x15 x16 x17 x18
    v x20 x21 x22 x23 x24 x25 x26 x27 x28 x29.

Definition set_progress_value (v : Z) (s : state) : state :=
  let '(mkState x0 x1 x2 x3 x4 x5 x6 x7 x8 x9 x10 x11 x12 x13 x14 x15 x16
      x17 x18 x19 _ x21 x22 x23 x24 x25 x26 x27 x28 x29) := s in
  mkState x0 x1 x2 x3 x4 x5 x6 x7 x8 x9 x10 x11 x12 x13 x14 x15 x16 x17 x18
    x19 v x21 x22 x23 x24 x25 x26 x27 x28 x29.

Definition set_progress_format (v : progress_text) (s : state) : state :=
  let '(mkState x0 x1 x2 x3 x4 x5 x6 x7 x8 x9 x10 x11 x12 x13 x14 x15 x16
      x17 x18 x19 x20 _ x22 x23 x24 x25 x26 x27 x28 x29) := s in
  mkState x0 x1 x2 x3 x4 x5 x6 x7 x8 x9 x10 x11 x12 x13 x14 x15 x16 x17 x18
    x19 x20 v x22 x23 x24 x25 x26 x27 x28 x29.

Definition set_status_label (v : list status_line) (s : state) : state :=
  let '(mkState x0 x1 x2 x3 x4 x5 x6 x7 x8 x9 x10 x11 x12 x13 x14 x15 x16
      x17 x18 x19 x20 x21 _ x23 x24 x25 x26 x27 x28 x29) := s in
  mkState x0 x1 x2 x3 x4 x5 x6 x7 x8 x9 x10 x11 x12 x13 x14 x15 x16 x17 x18
    x19 x20 x21 v x23 x24 x25 x26 x27 x28 x29.

Definition set_file_list (v : list list_item) (s : state) : state :=
  let '(mkState x0 x1 x2 x3 x4 x5 x6 x7 x8 x9 x10 x11 x12 x13 x14 x15 x16
      x17 x18 x19 x20 x21 x22 _ x24 x25 x26 x27 x28 x29) := s in
  mkState x0 x1 x2 x3 x4 x5 x6 x7 x8 x9 x10 x11 x12 x13 x14 x15 x16 x17 x18
    x19 x20 x21 x22 v x24 x25 x26 x27 x28 x29.

Definition set_frames_table (v : list (string * BlackFrameHit)) (s : state) : state :=
  let '(mkState x0 x1 x2 x3 x4 x5 x6 x7 x8 x9 x10 x11 x12 x13 x14 x15 x16
      x17 x18 x19 x20 x21 x22 x23 _ x25 x26 x27 x28 x29) := s in
  mkState x0 x1 x2 x3 x4 x5 x6 x7 x8 x9 x10 x11 x12 x13 x14 x15 x16 x17 x18
    x19 x20 x21 x22 x23 v x25 x26 x27 x28 x29.

Definition set_ranges_table (v : list (string * BlackRange)) (s : state) : state :=
  let '(mkState x0 x1 x2 x3 x4 x5 x6 x7 x8 x9 x10 x11 x12 x13 x14 x15 x16
      x17 x18 x19 x20 x21 x22 x23 x24 _ x26 x27 x28 x29) := s in
  mkState x0 x1 x2 x3 x4 x5 x6 x7 x8 x9 x10 x11 x12 x13 x14 x15 x16 x17 x18
    x19 x20 x21 x22 x23 x24 v x26 x27 x28 x29.

Definition set_export_frames_enabled (v : bool) (s : state) : state :=
  let '(mkState x0 x1 x2 x3 x4 x5 x6 x7 x8 x9 x10 x11 x12 x13 x14 x15 x16
      x17 x18 x19 x20 x21 x22 x23 x24 x25 _ x27 x28 x29) := s in
  mkState x0 x1 x2 x3 x4 x5 x6 x7 x8 x9 x10 x11 x12 x13 x14 x15 x16 x17 x18
    x19 x20 x21 x22 x23 x24 x25 v x27 x28 x29.

Definition set_export_ranges_enabled (v : bool) (s : state) : state :=
  let '(mkState x0 x1 x2 x3 x4 x5 x6 x7 x8 x9 x10 x11 x12 x13 x14 x15 x16
      x17 x18 x19 x20 x21 x22 x23 x24 x25 x26 _ x28 x29) := s in
  mkState x0 x1 x2 x3 x4 x5 x6 x7 x8 x9 x10 x11 x12 x13 x14 x15 x16 x17 x18
    x19 x20 x21 x22 x23 x24 x25 x26 v x28 x29.

Definition set_group_ranges_checkbox (v : bool) (s : state) : state :=
  let '(mkState x0 x1 x2 x3 x4 x5 x6 x7 x8 x9 x10 x11 x12 x13 x14 x15 x16
      x17 x18 x19 x20 x21 x22 x23 x24 x25 x26 x27 _ x29) := s in
  mkState x0 x1 x2 x3 x4 x5 x6 x7 x8 x9 x10 x11 x12 x13 x14 x15 x16 x17 x18
    x19 x20 x21 x22 x23 x24 x25 x26 x27 v x29.

Definition set_min_run_spin (v : Z) (s : state) : state :=
  let '(mkState x0 x1 x2 x3 x4 x5 x6 x7 x8 x9 x10 x11 x12 x13 x14 x15 x16
      x17 x18 x19 x20 x21 x22 x23 x24 x25 x26 x27 x28 _) := s in
  mkState x0 x1 x2 x3 x4 x5 x6 x7 x8 x9 x10 x11 x12 x13 x14 x15 x16 x17 x18
    x19 x20 x21 x22 x23 x24 x25 x26 x27 x28 v.

(** *** Slots

    A slot runs on the window state and may let an exception escape; the
    state reached at that point stays.  What a slot reads from outside the
    window is an argument of it: the clock ([time.time()], one reading
    [now] per delivery), whether the process came up ([waitForStarted]),
    the exit code and the text a process printed. *)

Definition M (A : Type) : Type := state -> result A * state.

#[global] Instance M_ret : MRet M := fun A a s => (Ok a, s).

#[global] Instance M_bind : MBind M := fun A B k m s =>
  match m s with
  | (Ok a, s') => k a s'
  | (Raise e, s') => (Raise e, s')
  end.

Definition get : M state := fun s => (Ok s, s).
Definition modify (f : state -> state) : M unit := fun s => (Ok tt, f s).
Definition raise {A : Type} (e : exn) : M A := fun s => (Raise e, s).
Definition lift {A : Type} (r : result A) : M A := fun s => (r, s).
Definition skip : M unit := mret tt.

(** [try: body except Exception: handler]. *)
Definition try_except (body handler : M unit) : M unit := fun s =>
  match body s with
  | (Raise _, s') => handler s'
  | r => r
  end.

(** [for x in xs: f(x)]. *)
Fixpoint for_each {A : Type} (f : A -> M unit) (xs : list A) : M unit :=
  match xs with
  | [] => skip
  | x :: xs' => f x;; for_each f xs'
  end.

(** The state a slot leaves, and the exception that escaped it. *)
Definition exec (m : M unit) (s : state) : state := snd (m s).
Definition escaped (m : M unit) (s : state) : option exn :=
  match fst (m s) with
  | Ok _ => None
  | Raise e => Some e
  end.

(** [seconds_to_hhmmssms(seconds)] succeeds when [round(seconds * 1000.0)]
    has an integer value; the text itself is not kept. *)
Definition seconds_to_hhmmssms (seconds : float) : M unit :=
  let ms := PrimFloat.mul seconds 1000 in
  if PrimFloat.is_nan ms then raise ValueError
  else if PrimFloat.is_infinity ms then raise OverflowError
  else skip.

(** The recurring guard [self.video_duration_s and self.video_duration_s > 0]. *)
Definition duration_known_positive (s : state) : bool :=
  match video_duration_s s with
  | Some d => float_truthy d && PrimFloat.ltb 0 d
  | None => false
  end.

(** Truth value of [self.video_duration_s]. *)
Definition duration_truthy (s : state) : bool :=
  match video_duration_s s with
  | Some d => float_truthy d
  | None => false
  end.

Definition nonempty {A : Type} (l : list A) : bool :=
  match l with [] => false | _ => true end.

Definition _set_progress_determinate (determinate : bool) : M unit :=
  modify (set_progress_determinate determinate).

Definition _set_running_ui (running : bool) : M unit :=
  modify (set_running running).

Definition _append_status_line (line : status_line) : M unit :=
  modify (fun s => set_status_label (status_label s ++ [line]) s).

Definition _mark_list_item_failed (index : nat) (label : string) : M unit :=
  modify (fun s =>
    set_file_list
      (alter (fun it => mkItem (item_path it) (NoteFailed label) true)
             index (file_list s)) s).

Definition _finalize_exports_state : M unit :=
  s ← get;
  let has_frames := existsb (fun kv => nonempty (snd kv)) (map_to_list (all_hits s)) in
  let has_ranges := existsb (fun kv => nonempty (snd kv)) (map_to_list (all_ranges s)) in
  modify (set_export_frames_enabled has_frames);;
  modify (set_export_ranges_enabled has_ranges).

(** [for path in queue: for x in store.get(path, [])]. *)
Definition rows_of {A : Type} (queue : list string) (store : gmap string (list A))
  : list (string * A) :=
  flat_map (fun path => map (pair path) (default [] (store !! path))) queue.

Definition _render_all_frames_table : M unit :=
  modify (fun s => set_frames_table (rows_of (_file_queue s) (all_hits s)) s).

Definition _render_all_ranges_table : M unit :=
  modify (fun s => set_ranges_table (rows_of (_file_queue s) (all_ranges s)) s).

(** [sum(len(v) for v in store.values())]. *)
Definition total_len {A : Type} (store : gmap string (list A)) : nat :=
  foldr (fun kv acc => (List.length (snd kv) + acc)%nat) 0%nat (map_to_list store).

Definition _on_all_files_finished (now : float) : M unit :=
  modify (set_queue_active false);;
  _set_running_ui false;;
  _set_progress_determinate true;;
  modify (set_progress_value 1000);;
  _render_all_frames_table;;
  _render_all_ranges_table;;
  s ← get;
  let total_files := List.length (_file_queue s) in
  let total_frames := total_len (all_hits s) in
  let total_ranges := total_len (all_ranges s) in
  duration ← (if PrimFloat.ltb 0 (_total_video_duration_s s)
              then seconds_to_hhmmssms (_total_video_duration_s s);;
                   mret (Some (_total_video_duration_s s))
              else mret None);
  elapsed ← match _queue_start_time s with
            | Some t0 =>
                seconds_to_hhmmssms (PrimFloat.sub now t0);;
                mret (Some (PrimFloat.sub now t0))
            | None => mret None
            end;
  modify (set_progress_format
            (FmtSummary total_files total_frames total_ranges duration elapsed));;
  _append_status_line
    (LineSummary total_files total_frames total_ranges duration elapsed);;
  _finalize_exports_state.

Definition _run_ffprobe (path : string) : M unit :=
  modify (set_probe_proc (Some (mkProcess path false))).

Definition _start_next_file (now : float) : M unit :=
  s ← get;
  if (List.length (_file_queue s) <=? _current_queue_index s)%nat
  then _on_all_files_finished now
  else
    match _file_queue s !! _current_queue_index s with
    | None => raise IndexError
    | Some path =>
        let idx := S (_current_queue_index s) in
        let total := List.length (_file_queue s) in
        modify (set_hits []);;
        modify (set_ranges []);;
        modify (set_pending_hits []);;
        modify (set_stderr_buf []);;
        modify (set_stdout_buf []);;
        modify (set_video_duration_s None);;
        modify (set_video_fps None);;
        modify (set_analysis_start_time None);;
        modify (set_progress_format (FmtProbing idx total path));;
        _run_ffprobe path
    end.

Definition kill (p : process) : process := mkProcess (proc_path p) true.

Definition _cancel : M unit :=
  modify (set_queue_active false);;
  modify (fun s => set_ffmpeg_proc (kill <$> ffmpeg_proc s) s);;
  modify (fun s => set_probe_proc (kill <$> probe_proc s) s);;
  modify (set_flush_timer false);;
  _set_running_ui false;;
  s ← get;
  modify (set_progress_format
            (FmtCancelled (_current_queue_index s) (List.length (_file_queue s))));;
  _finalize_exports_state.

Definition _record_failure_and_advance (now : float) (path label : string)
  : M unit :=
  modify (fun s => set_all_hits (<[path := []]> (all_hits s)) s);;
  modify (fun s => set_all_ranges (<[path := []]> (all_ranges s)) s);;
  s ← get;
  _mark_list_item_failed (_current_queue_index s) label;;
  _append_status_line (LineFailed path label);;
  modify (fun s => set_current_queue_index (S (_current_queue_index s)) s);;
  s ← get;
  if _queue_active s then _start_next_file now else skip.

Definition _run_ffmpeg (started : bool) (now : float) (path : string) : M unit :=
  s ← get;
  let idx := S (_current_queue_index s) in
  let total := List.length (_file_queue s) in
  (if duration_known_positive s
   then _set_progress_determinate true;; modify (set_progress_value 0)
   else _set_progress_determinate false);;
  modify (set_ffmpeg_proc (Some (mkProcess path false)));;
  modify (set_progress_format (FmtAnalyzing idx total path (duration_truthy s)));;
  if negb started
  then _record_failure_and_advance now path "FAILED - ffmpeg start"
  else
    modify (set_analysis_start_time (Some now));;
    modify (set_flush_timer true).

Section Probe.

(** The two library parsers the probe slot calls on text it did not
    check first: [json.loads] and [float] ([None] when they raise). *)
Context (json_loads : str -> option json) (str_to_float : str -> option float).

(** [float(v)] on a decoded value. *)
Definition py_float (v : json) : result float :=
  match v with
  | JStr s =>
      match str_to_float s with
      | Some x => Ok x
      | None => Raise ValueError
      end
  | JInt n => float_of_int n
  | JFloat x => Ok x
  | JBool b => Ok (if b then 1%float else 0%float)
  | JNull | JList _ | JDict _ => Raise TypeError
  end.

(** [float(num) / float(den) if float(den) != 0 else None]. *)
Definition frame_rate_of (num den : str) : result (option float) :=
  d ← py_float (JStr den);
  if negb (PrimFloat.eqb d 0) then
    n ← py_float (JStr num);
    d' ← py_float (JStr den);
    q ← float_truediv n d';
    Ok (Some q)
  else Ok None.

(** The [try] block of [_on_ffprobe_finished], first half: the
    duration, added to the batch total when it is not zero. *)
Definition read_duration (data : json) : M unit :=
  fmt ← lift (py_get data (txt "format") (JDict []));
  duration ← lift (py_get fmt (txt "duration") JNull);
  d ← lift (match duration with
            | JNull => Ok None
            | v => Some <$> py_float v
            end);
  modify (set_video_duration_s d);;
  s ← get;
  match video_duration_s s with
  | Some x =>
      if float_truthy x
      then modify (set_total_video_duration_s
                     (PrimFloat.add (_total_video_duration_s s) x))
      else skip
  | None => skip
  end.

(** [stream.get("avg_frame_rate") or stream.get("r_frame_rate") or "0/0"]. *)
Definition frame_rate_text (stream : json) : result json :=
  avg ← py_get stream (txt "avg_frame_rate") JNull;
  py_or avg
    (real ← py_get stream (txt "r_frame_rate") JNull;
     py_or real (Ok (JStr (txt "0/0")))).

(** Second half: the frame rate of the first stream. *)
Definition read_frame_rate (data : json) : M unit :=
  streams ← lift (py_item data (txt "streams"));
  stream ← lift (py_first streams);
  rate ← lift (frame_rate_text stream);
  parts ← lift (py_split_slash rate);
  nd ← lift (unpack2 parts);
  fps ← lift (frame_rate_of (fst nd) (snd nd));
  modify (set_video_fps fps).

Definition read_probe_report (out : str) : M unit :=
  data ← lift (match json_loads out with
               | Some d => Ok d
               | None => Raise JSONDecodeError
               end);
  read_duration data;;
  read_frame_rate data.

Definition _on_ffprobe_finished (started : bool) (now : float)
    (path : string) (exit_code : Z) (stdout : str) : M unit :=
  s ← get;
  match probe_proc s with
  | None => skip
  | Some _ =>
      let out := strip_space stdout in
      if negb (exit_code =? 0) || negb (truthy out)
      then _record_failure_and_advance now path "FAILED - probe"
      else
        try_except (read_probe_report out)
          (modify (set_video_duration_s None);;
           modify (set_video_fps None));;
        _run_ffmpeg started now path
  end.

End Probe.

Definition _update_progress_eta (now : float) (frac : float) : M unit :=
  s ← get;
  match _analysis_start_time s with
  | None => skip
  | Some t0 =>
      if PrimFloat.leb frac 0 then skip
      else
        let elapsed := PrimFloat.sub now t0 in
        if PrimFloat.ltb elapsed 0.5 then skip
        else
          let idx := S (_current_queue_index s) in
          let total := List.length (_file_queue s) in
          match _file_queue s !! _current_queue_index s with
          | None => raise IndexError
          | Some path =>
              estimated_total ← lift (float_truediv elapsed frac);
              let remaining := py_max2 0 (PrimFloat.sub estimated_total elapsed) in
              (if PrimFloat.is_finite remaining then skip else raise ValueError);;
              pct ← lift (int_of_float (PrimFloat.mul frac 100));
              modify (set_progress_format (FmtEta idx total path pct remaining))
          end
  end.

(** The completion fraction of a progress line: [m.group(1)] against the
    duration, both in microseconds. *)
Definition fraction_of (d : float) (g : str) : result float :=
  let out_time_us := int_of_digits g in
  dur_us ← int_of_float (PrimFloat.mul d 1000000);
  q ← int_truediv out_time_us dur_us;
  Ok (py_max2 0 (py_min2 1 q)).

(** The body of [for line in lines] in [_on_ffmpeg_stdout_chunk]. *)
Definition stdout_line (now : float) (line : str) : M unit :=
  s ← get;
  let on_end :=
    if match_progress_end line then
      if duration_known_positive s then
        modify (set_progress_value 1000);;
        match _file_queue s !! _current_queue_index s with
        | None => raise IndexError
        | Some path =>
            modify (set_progress_format
                      (FmtFinishing (S (_current_queue_index s))
                                    (List.length (_file_queue s)) path))
        end
      else skip
    else skip in
  match match_out_time_ms line, video_duration_s s with
  | Some g, Some d =>
      if float_truthy d && PrimFloat.ltb 0 d then
        frac ← lift (fraction_of d g);
        value ← lift (int_of_float (PrimFloat.mul frac 1000));
        modify (set_progress_value value);;
        _update_progress_eta now frac
      else on_end
  | _, _ => on_end
  end.

Definition _on_ffmpeg_stdout_chunk (now : float) (chunk : str) : M unit :=
  s ← get;
  match ffmpeg_proc s with
  | None => skip
  | Some _ =>
      let '(lines, rest) := _split_complete_lines (_stdout_buf s ++ chunk) in
      modify (set_stdout_buf rest);;
      for_each (stdout_line now) lines
  end.

(** [self.hits.append(hit)] and [self._pending_hits.append(hit)]. *)
Definition record_hit (hit : BlackFrameHit) : M unit :=
  modify (fun s => set_hits (hits s ++ [hit]) s);;
  modify (fun s => set_pending_hits (_pending_hits s ++ [hit]) s).

(** The body of [for line in lines] on the error stream. *)
Definition stderr_line (line : str) : M unit :=
  match _parse_blackframe_line line with
  | Some hit => record_hit hit
  | None => skip
  end.

Definition _on_ffmpeg_stderr_chunk (chunk : str) : M unit :=
  s ← get;
  match ffmpeg_proc s with
  | None => skip
  | Some _ =>
      let '(lines, rest) := _split_complete_lines (_stderr_buf s ++ chunk) in
      modify (set_stderr_buf rest);;
      for_each stderr_line lines
  end.

Definition _flush_pending_hits : M unit :=
  s ← get;
  match _pending_hits s with
  | [] => skip
  | _ :: _ =>
      let n := Nat.min 500 (List.length (_pending_hits s)) in
      let batch := take n (_pending_hits s) in
      modify (set_pending_hits (drop n (_pending_hits s)));;
      match _file_queue s !! _current_queue_index s with
      | None => raise IndexError
      | Some path =>
          modify (fun s' =>
            set_frames_table (frames_table s' ++ map (pair path) batch) s')
      end
  end.

(** [_on_ffmpeg_finished], second step: what is left in the error-stream
    buffer is parsed as one last line. *)
Definition flush_stderr_tail : M unit :=
  s ← get;
  if truthy (_stderr_buf s) then
    let tail_lines := [rstrip CR (_stderr_buf s)] in
    modify (set_stderr_buf []);;
    for_each stderr_line tail_lines;;
    _flush_pending_hits
  else skip.

(** [_on_ffmpeg_finished], the path after exit code 0: sort, build the
    ranges, store both under the path, and go on. *)
Definition store_results (now : float) (path : string) : M unit :=
  modify (fun s => set_hits (sorted_by_frame (hits s)) s);;
  modify (fun s =>
    set_ranges (if group_ranges_checkbox s
                then build_ranges (hits s) (min_run_spin s)
                else []) s);;
  modify (fun s => set_all_hits (<[path := hits s]> (all_hits s)) s);;
  modify (fun s => set_all_ranges (<[path := ranges s]> (all_ranges s)) s);;
  modify (set_hits []);;
  modify (set_ranges []);;
  s ← get;
  let count := List.length (default [] (all_hits s !! path)) in
  let range_count := List.length (default [] (all_ranges s !! path)) in
  modify (set_file_list
            (alter (fun it => mkItem (item_path it) (NoteCount path count)
                                     (item_red it))
                   (_current_queue_index s) (file_list s)));;
  _append_status_line (LineResult path count range_count);;
  modify (set_current_queue_index (S (_current_queue_index s)));;
  if _queue_active s
     && (S (_current_queue_index s) <? List.length (_file_queue s))%nat
  then _start_next_file now
  else _on_all_files_finished now.

Definition _on_ffmpeg_finished (now : float) (path : string) (exit_code : Z)
  : M unit :=
  modify (set_flush_timer false);;
  _flush_pending_hits;;
  flush_stderr_tail;;
  if negb (exit_code =? 0)
  then _record_failure_and_advance now path "FAILED"
  else store_results now path.

(** [_start], with [Path(p).exists()] read from [on_disk]. *)
Definition _start (on_disk : string -> bool) (now : float) : M unit :=
  s ← get;
  let queue :=
    List.filter (fun p => negb (String.eqb p EmptyString) && on_disk p)
                (map item_path (file_list s)) in
  match queue with
  | [] => skip
  | _ :: _ =>
      modify (set_file_queue queue);;
      modify (set_current_queue_index 0%nat);;
      modify (set_queue_active true);;
      modify (set_all_hits ∅);;
      modify (set_all_ranges ∅);;
      modify (set_hits []);;
      modify (set_ranges []);;
      modify (set_pending_hits []);;
      modify (set_stderr_buf []);;
      modify (set_stdout_buf []);;
      modify (set_frames_table []);;
      modify (set_ranges_table []);;
      modify (set_export_frames_enabled false);;
      modify (set_export_ranges_enabled false);;
      _set_progress_determinate true;;
      modify (set_progress_value 0);;
      modify (set_progress_format FmtReady);;
      modify (set_status_label []);;
      modify (fun s' =>
        set_file_list
          (map (fun it => mkItem (item_path it) NotePlain false) (file_list s'))
          s');;
      modify (set_queue_start_time (Some now));;
      modify (set_total_video_duration_s 0%float);;
      _set_running_ui true;;
      _start_next_file now
  end.

Definition on_start_or_cancel (on_disk : string -> bool) (now : float) : M unit :=
  s ← get;
  if _running s then _cancel else _start on_disk now.

(** The window as [__init__] leaves it, with the given file list. *)
Definition initial (files : list string) : state :=
  {| probe_proc := None; ffmpeg_proc := None;
     _stderr_buf := []; _stdout_buf := [];
     video_duration_s := None; video_fps := None;
     _running := false;
     _analysis_start_time := None; _queue_start_time := None;
     _total_video_duration_s := 0%float;
     hits := []; ranges := []; _pending_hits := [];
     _file_queue := []; _current_queue_index := 0%nat; _queue_active := false;
     all_hits := ∅; all_ranges := ∅;
     flush_timer := false;
     progress_determinate := true; progress_value := 0;
     progress_format := FmtReady;
     status_label := [];
     file_list := map (fun p => mkItem p NotePlain false) files;
     frames_table := []; ranges_table := [];
     export_frames_enabled := false; export_ranges_enabled := false;
     group_ranges_checkbox := true; min_run_spin := 1 |}.

End Model.

(* ===================================================================== *)
(** ** Notions used to state the properties *)
(* ===================================================================== *)

Import PyText PyNum Model.

(** Sizes of what the line splitter takes and gives. *)
Module SplitterSpec.

(** Characters in a list of lines, counting one line feed for each. *)
Fixpoint weight (ls : list str) : nat :=
  match ls with
  | [] => 0
  | l :: ls' => S (List.length l) + weight ls'
  end.

(** What the splitter emits for raw parts. *)
Definition emitted (ps : list str) : list str :=
  map (rstrip CR) (List.filter truthy ps).

End SplitterSpec.

(** Runs of consecutive frames, and what a range says of its run. *)
Module RangeSpec.

Definition by_frame_le (a b : BlackFrameHit) : Prop := frame a <= frame b.
Definition by_frame_lt (a b : BlackFrameHit) : Prop := frame a < frame b.

(** The runs of a list of hits, as the design describes them: the list is
    cut wherever a hit's frame is not the previous frame plus one. *)
Fixpoint group_runs (hs : list BlackFrameHit) : list (list BlackFrameHit) :=
  match hs with
  | [] => []
  | h :: hs' =>
      match group_runs hs' with
      | (h' :: g) :: gs =>
          if frame h' =? frame h + 1
          then (h :: h' :: g) :: gs
          else [h] :: (h' :: g) :: gs
      | _ => [[h]]
      end
  end.

(** First and last frame of a run. *)
Definition lo (g : list BlackFrameHit) : Z :=
  match g with h :: _ => frame h | [] => 0 end.
Definition hi (g : list BlackFrameHit) : Z :=
  match g with h :: _ => frame (List.last g h) | [] => 0 end.

(** A run: frames go up by one from each hit to the next. *)
Fixpoint chain (g : list BlackFrameHit) : Prop :=
  match g with
  | a :: ((b :: _) as g') => frame b = frame a + 1 /\ chain g'
  | _ => True
  end.

(** A run cannot be extended by the hit that follows it. *)
Fixpoint cut_between (gs : list (list BlackFrameHit)) : Prop :=
  match gs with
  | g1 :: ((g2 :: _) as gs') => lo g2 <> hi g1 + 1 /\ cut_between gs'
  | _ => True
  end.

(** Ranges appended for a list of finished runs. *)
Definition ranges_of (m : Z) (gs : list (list BlackFrameHit)) : list BlackRange :=
  omap (finalize m) gs.





End RangeSpec.

(** The order of binary64 values, read off their sign, exponent and mantissa. *)
Module FloatKey.

(** A float that is not a NaN, as a point of Z^3 ordered lexicographically:
    class, then exponent, then mantissa, the last two negated below zero. *)
Definition key (f : spec_float) : Z * Z * Z :=
  match f with
  | S754_zero _ | S754_nan => (0, 0, 0)
  | S754_infinity s => (if s then -2 else 2, 0, 0)
  | S754_finite s m e => if s then (-1, - e, Zneg m) else (1, e, Zpos m)
  end.




End FloatKey.

(** What it means for the batch to record a failure and to go on. *)
Module BatchSpec.




(** The last line of the error stream: its hit, if it is one, joins the
    hits; the buffer is emptied when it held anything. *)
Definition tail_hits (s : state) : list BlackFrameHit :=
  match _parse_blackframe_line (rstrip CR (_stderr_buf s)) with
  | Some h => [h]
  | None => []
  end.

(** A slot that neither reads nor writes the output-stream buffer. *)
Definition ignores_stdout_buf {A : Type} (m : M A) : Prop :=
  forall b s, m (set_stdout_buf b s) = (fst (m s), set_stdout_buf b (snd (m s))).

(** A slot whose outcome, the output-stream buffer aside, does not depend
    on what that buffer held. *)
Definition forgets_stdout_buf {A : Type} (m : M A) : Prop :=
  forall b s,
    fst (m (set_stdout_buf b s)) = fst (m s)
    /\ set_stdout_buf [] (snd (m (set_stdout_buf b s)))
       = set_stdout_buf [] (snd (m s)).

End BatchSpec.

(** Concrete hits, probe reports and windows, reached through the slots. *)
Module Samples.

Definition hit_at (n : Z) : BlackFrameHit := mkHit n None None None.

Definition hit_with (n : Z) (pb : option float) : BlackFrameHit :=
  mkHit n None pb None.

(** [float(s)] on a plain numeral, [digits] or [digits.digits]. *)
Definition float_of_numeral (s : str) : option float :=
  let '(ip, r) := span_digits s in
  let '(fp, r') := span_fraction r in
  if truthy ip && negb (truthy r') then Some (float_of_decimal ip fp) else None.

(** A probe report with a duration and a frame rate. *)
Definition report (duration rate : string) : json :=
  JDict [(txt "format", JDict [(txt "duration", JStr (txt duration))]);
         (txt "streams", JList [JDict [(txt "avg_frame_rate", JStr (txt rate))]])].

(** The window after a batch was started at clock [t0] on existing files
    and the probe of the first one delivered the report. *)
Definition analysing (file : string) (others : list string)
    (duration rate : string) (t0 : float) : state :=
  exec (_on_ffprobe_finished (fun _ => Some (report duration rate))
          float_of_numeral true t0 file 0 (txt "{}"))
       (exec (_start (fun _ => true) t0) (initial (file :: others))).

(** A detection line as ffmpeg prints it. *)
Definition sample_line : str :=
  txt "[Parsed_blackframe_0 @ 0x55d] frame:23 pblack:100 pts:27600 t:0.920000".

(** The first of two files under analysis, one detection line received
    without its line feed. *)
Definition mid_analysis : state :=
  exec (_on_ffmpeg_stderr_chunk sample_line)
       (analysing "a.mp4" ["b.mp4"%string] "5.0" "25/1" 100).




(** A batch of three files run to its end, one detection parsed for each
    file: the second analysis exits with code 1, the others with 0. *)
Definition three_file_batch : state :=
  let probe f s :=
    exec (_on_ffprobe_finished (fun _ => Some (report "5.0" "25/1"))
            float_of_numeral true 100 f 0 (txt "{}")) s in
  let hit s := exec (_on_ffmpeg_stderr_chunk (sample_line ++ [NL])) s in
  let finish f code s := exec (_on_ffmpeg_finished 110 f code) s in
  finish "c.mp4"%string 0
    (hit (probe "c.mp4"%string
       (finish "b.mp4"%string 1
          (hit (probe "b.mp4"%string
             (finish "a.mp4"%string 0
                (hit (analysing "a.mp4" ["b.mp4"; "c.mp4"]%string
                        "5.0" "25/1" 100)))))))).

End Samples.

(* ===================================================================== *)
(** ** Notions used to state the further properties *)
(* ===================================================================== *)

(** The shape of a line the splitter hands over. *)
Module LineShape.

(** A line as a consumer sees it: no line feed in it and no carriage
    return at its end. *)
Definition clean_line (l : str) : Prop :=
  contains NL l = false /\ List.last l NL <> CR.

End LineShape.

(** Frames a list of ranges stands for. *)
Module RangeCover.

(** The frame [f] lies in the range [r]. *)
Definition inside (f : Z) (r : BlackRange) : Prop :=
  start_frame r <= f <= end_frame r.

(** The frames of all ranges, counted with [length_frames]. *)
Definition total_length (rs : list BlackRange) : Z :=
  fold_right (fun r acc => length_frames r + acc) 0 rs.

(** A detection stands at each end of the range and gives it its times. *)
Definition ends_on (hits : list BlackFrameHit) (r : BlackRange) : Prop :=
  exists h1 h2,
    In h1 hits /\ In h2 hits
    /\ frame h1 = start_frame r /\ time_s h1 = start_time_s r
    /\ frame h2 = end_frame r /\ time_s h2 = end_time_s r.

End RangeCover.

(** The text of a timestamp.  [Model.seconds_to_hhmmssms] keeps only
    whether the conversion raises; here is the text it returns. *)
Module Timestamp.

(** [round(x)] for a [float]: the nearest integer, a tie going to the even
    one. *)
Definition py_round (x : float) : result Z :=
  match Prim2SF x with
  | S754_zero _ => Ok 0
  | S754_finite s m e =>
      let mag :=
        if 0 <=? e then Z.shiftl (Zpos m) e
        else
          let d := Z.shiftl 1 (- e) in
          let q := Zpos m / d in
          let r := Zpos m mod d in
          match 2 * r ?= d with
          | Lt => q
          | Gt => q + 1
          | Eq => if Z.even q then q else q + 1
          end in
      Ok (if s then - mag else mag)
  | S754_infinity _ => Raise OverflowError
  | S754_nan => Raise ValueError
  end.

Definition digit_char (d : Z) : ascii := ascii_of_nat (48 + Z.to_nat d).

(** The decimal digits of [n], least significant first into [acc]. *)
Fixpoint digits_from (fuel : nat) (n : Z) (acc : str) : str :=
  match fuel with
  | O => acc
  | S fuel' =>
      let acc' := digit_char (n mod 10) :: acc in
      if n <? 10 then acc' else digits_from fuel' (n / 10) acc'
  end.

(** [str(n)] for [n >= 0]. *)
Definition decimal (n : Z) : str :=
  digits_from (S (Z.to_nat (Z.log2 n))) n [].

Definition zero_pad (width : nat) (ds : str) : str :=
  repeat "0"%char (width - List.length ds) ++ ds.

(** [format(n, "0{width}d")]: zeros fill up to the width, a minus sign
    counting as one character of it. *)
Definition format_0d (width : nat) (n : Z) : str :=
  if n <? 0 then "-"%char :: zero_pad (width - 1) (decimal (- n))
  else zero_pad width (decimal n).

(** [seconds_to_hhmmssms(seconds)]. *)
Definition seconds_to_hhmmssms (seconds : option float) : result str :=
  match seconds with
  | None => Ok (txt "n/a")
  | Some x =>
      ms ← py_round (PrimFloat.mul x 1000);
      let total_seconds := ms / 1000 in
      let hours := total_seconds / 3600 in
      let minutes := (total_seconds mod 3600) / 60 in
      let secs := total_seconds mod 60 in
      let msec := ms mod 1000 in
      Ok (format_0d 2 hours ++ ":"%char :: format_0d 2 minutes
          ++ ":"%char :: format_0d 2 secs ++ "."%char :: format_0d 3 msec)
  end.

(** A field of a timestamp: [width] decimal digits, or more. *)
Definition field (width : nat) (ds : str) : Prop :=
  (width <= List.length ds)%nat /\ forallb is_digit ds = true.

(** A field of exactly [width] digits that reads as a number below [bound]. *)
Definition field_below (width : nat) (bound : Z) (ds : str) : Prop :=
  List.length ds = width /\ forallb is_digit ds = true
  /\ int_of_digits ds < bound.

End Timestamp.

(** Detection lines, as the blackframe filter logs them. *)
Module LineFormat.






End LineFormat.

(** The slots as the event loop calls them, one after the other. *)
Module EventLoop.

(** A call of a slot, with what the slot reads from outside the window. *)
Inductive slot_call : Type :=
| StartOrCancel (on_disk : string -> bool) (now : float)
| ProbeFinished (started : bool) (now : float) (path : string)
    (exit_code : Z) (stdout : str)
| StdoutChunk (now : float) (chunk : str)
| StderrChunk (chunk : str)
| TimerTick
| FfmpegFinished (now : float) (path : string) (exit_code : Z).

Section Calls.

Context (json_loads : str -> option json) (str_to_float : str -> option float).

Definition call (c : slot_call) : M unit :=
  match c with
  | StartOrCancel on_disk now => on_start_or_cancel on_disk now
  | ProbeFinished started now path exit_code stdout =>
      _on_ffprobe_finished json_loads str_to_float started now path
        exit_code stdout
  | StdoutChunk now chunk => _on_ffmpeg_stdout_chunk now chunk
  | StderrChunk chunk => _on_ffmpeg_stderr_chunk chunk
  | TimerTick => _flush_pending_hits
  | FfmpegFinished now path exit_code => _on_ffmpeg_finished now path exit_code
  end.

(** An exception that escapes a slot is reported and the loop goes on
    from the state the slot left. *)
Definition run_calls (cs : list slot_call) (s : state) : state :=
  fold_left (fun s c => exec (call c) s) cs s.

End Calls.





(** [s'] is [s] but for the output-stream buffer and the value and text
    of the progress bar. *)
Definition progress_only (s s' : state) : Prop :=
  exists b v f,
    s' = set_progress_format f (set_progress_value v (set_stdout_buf b s)).

(** The two flags of a run: the button reads Cancel, and the queue is
    active. *)
Definition flags (s : state) : bool * bool := (_running s, _queue_active s).

(** What a slot does to the flags: it leaves them, clears both or sets
    both. *)
Definition flags_step (s s' : state) : Prop :=
  flags s' = flags s \/ flags s' = (false, false) \/ flags s' = (true, true).

(** A slot, or a part of one, that leaves a view of the window as it
    is, also when it raises. *)
Definition keeps {A B : Type} (view : state -> B) (m : M A) : Prop :=
  forall s, view (snd (m s)) = view s.

Definition steps_flags {A : Type} (m : M A) : Prop :=
  forall s, flags_step s (snd (m s)).

End EventLoop.

(** A batch from the first file to the last. *)
Module Batch.
Import EventLoop.










(** [s'] is [s] but for what the probe report gives: the duration, the
    frame rate and the total duration of the batch. *)
Definition probe_only (s s' : state) : Prop :=
  exists d f t,
    s' = set_video_fps f (set_total_video_duration_s t (set_video_duration_s d s)).

Definition writes_probe_only {A : Type} (m : M A) : Prop :=
  forall s, probe_only s (snd (m s)).

Section Stages.

Context (files : list string) (g : bool) (m : Z).



End Stages.

End Batch.

(** Collecting video files and filling the file list. *)
Module Files.

Import EventLoop.

Definition VIDEO_EXTENSIONS : list string :=
  [".mp4"; ".mov"; ".mkv"; ".m4v"; ".avi"; ".mts"; ".m2ts";
   ".webm"; ".wmv"; ".flv"; ".ts"; ".vob"; ".mpg"; ".mpeg"]%string.

(** [for x in xs: acc = f(x, acc)], where a step may raise. *)
Fixpoint for_result {A S : Type} (f : A -> S -> result S) (xs : list A) (acc : S)
  : result S :=
  match xs with
  | [] => Ok acc
  | x :: xs' => acc' ← f x acc; for_result f xs' acc'
  end.

Section FileSystem.

(** What [pathlib] answers for a path, written as its text: [is_dir()],
    [is_file()], [sorted(rglob("*"))], [suffix.lower()] and
    [str(resolve())].  The calls that reach the disk may raise. *)
Context (is_dir is_file : string -> result bool)
        (rglob_sorted : string -> result (list string))
        (suffix_lower : string -> string)
        (resolve : string -> result string).

Definition is_video (p : string) : bool :=
  bool_decide (suffix_lower p ∈ VIDEO_EXTENSIONS).

(** The body the function has twice, for a child of a folder and for a
    path given itself; [acc] is the pair of [seen] and [result]. *)
Definition take_file (c : string) (acc : gset string * list string)
  : result (gset string * list string) :=
  f ← is_file c;
  if f && is_video c then
    resolved ← resolve c;
    if bool_decide (resolved ∈ fst acc) then Ok acc
    else Ok ({[resolved]} ∪ fst acc, snd acc ++ [resolved])
  else Ok acc.

(** The body of the loop over [paths]. *)
Definition visit (p : string) (acc : gset string * list string)
  : result (gset string * list string) :=
  d ← is_dir p;
  if (d : bool) then
    children ← rglob_sorted p;
    for_result take_file children acc
  else take_file p acc.

Definition collect_video_files (paths : list string) : result (list string) :=
  snd <$> for_result visit paths (∅, []).

(** The loop of [_add_files_to_list], [existing] being its local set. *)
Fixpoint add_new (paths : list string) (existing : gset string) : M unit :=
  match paths with
  | [] => skip
  | p :: ps =>
      if bool_decide (p ∈ existing) then add_new ps existing
      else
        modify (fun s => set_file_list (file_list s ++ [mkItem p NotePlain false]) s);;
        add_new ps ({[p]} ∪ existing)
  end.

(** The height [_resize_file_list] gives the list is geometry and is
    left out, as the message boxes are. *)
Definition _add_files_to_list (paths : list string) : M unit :=
  s ← get;
  add_new paths (list_to_set (map item_path (file_list s))).

Definition add_collected (paths : list string) : M unit :=
  video_paths ← lift (collect_video_files paths);
  if nonempty video_paths then _add_files_to_list video_paths else skip.

(** [dropEvent]; a URL is kept as [isLocalFile()] and [toLocalFile()]. *)
Definition dropEvent (urls : list (bool * string)) : M unit :=
  s ← get;
  if _running s then skip
  else
    let raw_paths := map snd (List.filter fst urls) in
    if nonempty raw_paths then add_collected raw_paths else skip.

(** [on_browse] and [on_browse_folder], with what the dialog returned. *)
Definition on_browse (paths : list string) : M unit :=
  if nonempty paths then add_collected paths else skip.

Definition on_browse_folder (folder : string) : M unit :=
  if negb (String.eqb folder EmptyString) then add_collected [folder] else skip.

Definition on_clear_files : M unit := modify (set_file_list []).

(** What can happen to the window: a slot of the analysis, or one of the
    actions on the file list. *)
Inductive window_event : Type :=
| Slot (c : slot_call)
| Dropped (urls : list (bool * string))
| Browsed (paths : list string)
| BrowsedFolder (folder : string)
| Cleared.

Context (json_loads : str -> option json) (str_to_float : str -> option float).

Definition happen (e : window_event) : M unit :=
  match e with
  | Slot c => call json_loads str_to_float c
  | Dropped urls => dropEvent urls
  | Browsed paths => on_browse paths
  | BrowsedFolder folder => on_browse_folder folder
  | Cleared => on_clear_files
  end.

Definition run_events (es : list window_event) (s : state) : state :=
  fold_left (fun s e => exec (happen e) s) es s.

(** A path [c] the function looks at: one of [paths] that is no folder,
    or a child of one that is. *)
Definition looked_at (paths : list string) (c : string) : Prop :=
  (c ∈ paths /\ is_dir c = Ok false)
  \/ (exists p cs, p ∈ paths /\ is_dir p = Ok true
                   /\ rglob_sorted p = Ok cs /\ c ∈ cs).

(** [r] is the resolved path of a video file among [cs]. *)
Definition found (cs : list string) (r : string) : Prop :=
  exists c, c ∈ cs /\ is_file c = Ok true /\ is_video c = true
            /\ resolve c = Ok r.

(** An exception comes from the file system. *)
Definition fs_raised (e : exn) : Prop :=
  exists c, is_dir c = Raise e \/ is_file c = Raise e
            \/ rglob_sorted c = Raise e \/ resolve c = Raise e.

End FileSystem.

(** [seen] and [result] hold the same paths, each once. *)
Definition tidy (acc : gset string * list string) : Prop :=
  NoDup (snd acc) /\ forall r, r ∈ fst acc <-> r ∈ snd acc.

(** The paths of the file list, in the order shown. *)
Definition listed (s : state) : list string := map item_path (file_list s).

(** The paths of the list together with the queue. *)
Definition shelf (s : state) : list string * list string :=
  (listed s, _file_queue s).

(** A fresh item, as [_add_files_to_list] makes it. *)
Definition plain (p : string) : list_item := mkItem p NotePlain false.

(** The queue [_start] takes from the list. *)
Definition startable (on_disk : string -> bool) (l : list string) : list string :=
  List.filter (fun p => negb (String.eqb p EmptyString) && on_disk p) l.

End Files.

(* ===================================================================== *)
(** ** Properties *)
(* ===================================================================== *)

Import SplitterSpec RangeSpec FloatKey BatchSpec Samples.

(** *** The line splitter *)

Module SplitterFacts.

Lemma split_on_not_nil sep s : split_on sep s <> [].
Proof.
  destruct s as [|c s]; simpl; [discriminate|].
  destruct (Ascii.eqb c sep); [discriminate|].
  destruct (split_on sep s); discriminate.
Qed.

Lemma split_on_cons_sep sep s : split_on sep (sep :: s) = [] :: split_on sep s.
Proof. simpl. now rewrite Ascii.eqb_refl. Qed.

Lemma split_on_cons_other sep c s :
  c <> sep ->
  exists p ps, split_on sep s = p :: ps /\ split_on sep (c :: s) = (c :: p) :: ps.
Proof.
  intros Hc. simpl. apply Ascii.eqb_neq in Hc. rewrite Hc.
  pose proof (split_on_not_nil sep s) as Hn.
  destruct (split_on sep s) as [|p ps]; [congruence|]. eauto.
Qed.

(** The raw parts, joined again, are the text. *)
Lemma rejoin_split_on s :
  rejoin (all_but_last (split_on NL s)) (last_part (split_on NL s)) = s.
Proof.
  unfold rejoin, all_but_last, last_part.
  induction s as [|c s IH]; [reflexivity|].
  destruct (ascii_dec c NL) as [->|Hc].
  - rewrite split_on_cons_sep.
    pose proof (split_on_not_nil NL s) as Hn.
    destruct (split_on NL s) as [|p ps] eqn:E; [congruence|].
    change (removelast ([] :: p :: ps)) with ([] :: removelast (p :: ps)).
    change (List.last ([] :: p :: ps) []) with (List.last (p :: ps) []).
    simpl map. simpl List.concat. simpl app at 1. simpl. f_equal. exact IH.
  - destruct (split_on_cons_other NL c s Hc) as (p & ps & E1 & E2).
    rewrite E2. rewrite E1 in IH. destruct ps as [|q ps].
    + simpl in *. now f_equal.
    + change (removelast ((c :: p) :: q :: ps)) with ((c :: p) :: removelast (q :: ps)).
      change (removelast (p :: q :: ps)) with (p :: removelast (q :: ps)) in IH.
      change (List.last ((c :: p) :: q :: ps) []) with (List.last (q :: ps) []).
      change (List.last (p :: q :: ps) []) with (List.last (q :: ps) []) in IH.
      simpl in *. f_equal. exact IH.
Qed.

Lemma split_on_no_sep s : contains NL s = false -> split_on NL s = [s].
Proof.
  unfold contains. induction s as [|c s IH]; [reflexivity|].
  cbn [existsb split_on]. intros H. apply orb_false_iff in H as [H1 H2].
  rewrite Ascii.eqb_sym in H1. rewrite H1. now rewrite IH.
Qed.

(** The early return of the splitter is the general case in disguise. *)
Lemma split_complete_lines_eq buf :
  _split_complete_lines buf =
    (map (rstrip CR) (List.filter truthy (all_but_last (split_on NL buf))),
     last_part (split_on NL buf)).
Proof.
  unfold _split_complete_lines.
  destruct (contains NL buf) eqn:E; [reflexivity|].
  simpl. now rewrite (split_on_no_sep _ E).
Qed.

Lemma last_part_no_sep s : contains NL (last_part (split_on NL s)) = false.
Proof.
  unfold last_part. induction s as [|c s IH]; [reflexivity|].
  destruct (ascii_dec c NL) as [->|Hc].
  - rewrite split_on_cons_sep.
    pose proof (split_on_not_nil NL s) as Hn.
    destruct (split_on NL s) as [|p ps]; [congruence|]. exact IH.
  - destruct (split_on_cons_other NL c s Hc) as (p & ps & E1 & E2).
    rewrite E2. rewrite E1 in IH. destruct ps as [|q ps].
    + cbn [List.last] in *. unfold contains in *. cbn [existsb].
      apply Ascii.eqb_neq in Hc. rewrite Ascii.eqb_sym, Hc. exact IH.
    + exact IH.
Qed.

(** Splitting a text in two deliveries: the parts of the first, then the
    parts of what the first left over followed by the second. *)
Lemma split_on_app s1 s2 :
  all_but_last (split_on NL (s1 ++ s2)) =
    all_but_last (split_on NL s1)
    ++ all_but_last (split_on NL (last_part (split_on NL s1) ++ s2))
  /\ last_part (split_on NL (s1 ++ s2)) =
     last_part (split_on NL (last_part (split_on NL s1) ++ s2)).
Proof.
  unfold all_but_last, last_part.
  induction s1 as [|c s1 IH]; [split; reflexivity|].
  destruct (ascii_dec c NL) as [->|Hc].
  - change ((NL :: s1) ++ s2) with (NL :: (s1 ++ s2)).
    rewrite !split_on_cons_sep.
    pose proof (split_on_not_nil NL s1) as Hn1.
    pose proof (split_on_not_nil NL (s1 ++ s2)) as Hn2.
    destruct (split_on NL s1) as [|p ps]; [congruence|].
    destruct (split_on NL (s1 ++ s2)) as [|p' ps']; [congruence|].
    change (removelast ([] :: p' :: ps')) with ([] :: removelast (p' :: ps')).
    change (removelast ([] :: p :: ps)) with ([] :: removelast (p :: ps)).
    change (List.last ([] :: p' :: ps') []) with (List.last (p' :: ps') []).
    change (List.last ([] :: p :: ps) []) with (List.last (p :: ps) []).
    destruct IH as [IH1 IH2]. split; [|exact IH2].
    rewrite IH1. reflexivity.
  - change ((c :: s1) ++ s2) with (c :: (s1 ++ s2)).
    destruct (split_on_cons_other NL c s1 Hc) as (p & ps & E1 & E2).
    destruct (split_on_cons_other NL c (s1 ++ s2) Hc) as (p' & ps' & E1' & E2').
    rewrite E2, E2'. rewrite E1, E1' in IH. destruct IH as [IH1 IH2].
    destruct ps as [|q ps].
    + (* the first delivery holds no line feed *)
      cbn [removelast List.last app] in IH1, IH2 |- *.
      destruct (split_on_cons_other NL c (p ++ s2) Hc) as (p2 & ps2 & E3 & E4).
      rewrite E4. rewrite E3 in IH1, IH2.
      destruct ps' as [|q' ps'], ps2 as [|q2 ps2];
        cbn [removelast List.last app] in IH1, IH2 |- *;
        try discriminate; split; congruence.
    + change (removelast ((c :: p) :: q :: ps)) with ((c :: p) :: removelast (q :: ps)).
      change (removelast (p :: q :: ps)) with (p :: removelast (q :: ps)) in IH1.
      change (List.last ((c :: p) :: q :: ps) []) with (List.last (q :: ps) []).
      change (List.last (p :: q :: ps) []) with (List.last (q :: ps) []) in IH1, IH2.
      destruct ps' as [|q' ps'].
      * simpl in IH1. discriminate.
      * change (removelast ((c :: p') :: q' :: ps')) with ((c :: p') :: removelast (q' :: ps')).
        change (removelast (p' :: q' :: ps')) with (p' :: removelast (q' :: ps')) in IH1.
        change (List.last ((c :: p') :: q' :: ps') []) with (List.last (q' :: ps') []).
        change (List.last (p' :: q' :: ps') []) with (List.last (q' :: ps') []) in IH2.
        simpl in IH1. injection IH1 as -> IH1. split; [|exact IH2].
        simpl. now rewrite IH1.
Qed.

Lemma feed_all_eq chunks : forall b,
  contains NL b = false ->
  feed_all b chunks = _split_complete_lines (b ++ List.concat chunks).
Proof.
  induction chunks as [|c cs IH]; intros b Hb.
  - cbn [feed_all List.concat]. rewrite app_nil_r.
    unfold _split_complete_lines. now rewrite Hb.
  - cbn [feed_all List.concat]. unfold feed.
    rewrite (split_complete_lines_eq (b ++ c)).
    rewrite (IH _ (last_part_no_sep (b ++ c))).
    rewrite !split_complete_lines_eq.
    rewrite (app_assoc b c).
    destruct (split_on_app (b ++ c) (List.concat cs)) as [E1 E2].
    rewrite E1, E2, List.filter_app, List.map_app. reflexivity.
Qed.

Lemma rstrip_length ch s : (List.length (rstrip ch s) <= List.length s)%nat.
Proof.
  induction s as [|c s IH]; [reflexivity|].
  cbn [rstrip]. destruct (rstrip ch s) as [|d r].
  - destruct (Ascii.eqb c ch); cbn; lia.
  - cbn in *. lia.
Qed.

Lemma rstrip_kept l : kept_verbatim l = true -> rstrip CR l = l.
Proof.
  unfold kept_verbatim. induction l as [|c l IH]; [reflexivity|].
  intros H. apply andb_true_iff in H as [_ H].
  destruct l as [|d l].
  - cbn [List.last] in H. cbn [rstrip]. apply negb_true_iff in H. now rewrite H.
  - change (List.last (c :: d :: l) NL) with (List.last (d :: l) NL) in H.
    cbn [rstrip] in IH |- *. rewrite IH; [reflexivity|]. now rewrite H.
Qed.

Lemma rstrip_shorter l :
  truthy l = true -> kept_verbatim l = false ->
  (List.length (rstrip CR l) < List.length l)%nat.
Proof.
  unfold kept_verbatim. induction l as [|c l IH]; [discriminate|].
  intros _ H. cbn [truthy andb] in H.
  destruct l as [|d l].
  - cbn [List.last] in H. apply negb_false_iff in H.
    cbn [rstrip]. rewrite H. cbn. lia.
  - change (List.last (c :: d :: l) NL) with (List.last (d :: l) NL) in H.
    specialize (IH eq_refl H).
    change (rstrip CR (c :: d :: l)) with
      (match rstrip CR (d :: l) with
       | [] => if Ascii.eqb c CR then [] else [c]
       | r => c :: r
       end).
    destruct (rstrip CR (d :: l)) as [|e r].
    + destruct (Ascii.eqb c CR); cbn; lia.
    + cbn [List.length] in *. lia.
Qed.

Lemma rejoin_length ls r :
  List.length (rejoin ls r) = (weight ls + List.length r)%nat.
Proof.
  unfold rejoin. rewrite List.length_app. f_equal.
  induction ls as [|l ls IH]; [reflexivity|].
  cbn [map List.concat weight]. rewrite !List.length_app, IH. cbn [List.length]. lia.
Qed.

Lemma emitted_kept ps : forallb kept_verbatim ps = true -> emitted ps = ps.
Proof.
  unfold emitted. induction ps as [|p ps IH]; [reflexivity|].
  cbn [forallb]. intros H. apply andb_true_iff in H as [Hp Hps].
  cbn [List.filter].
  assert (truthy p = true) as ->
    by (unfold kept_verbatim in Hp; now apply andb_true_iff in Hp as [? _]).
  cbn [map]. now rewrite (rstrip_kept _ Hp), IH.
Qed.

Lemma emitted_cons p ps :
  emitted (p :: ps) = if truthy p then rstrip CR p :: emitted ps else emitted ps.
Proof. unfold emitted. cbn [List.filter]. now destruct (truthy p). Qed.

Lemma emitted_weight ps :
  (weight (emitted ps) <= weight ps)%nat.
Proof.
  induction ps as [|p ps IH]; [reflexivity|].
  rewrite emitted_cons. pose proof (rstrip_length CR p).
  destruct (truthy p); cbn [weight]; lia.
Qed.

Lemma emitted_lighter ps :
  forallb kept_verbatim ps = false -> (weight (emitted ps) < weight ps)%nat.
Proof.
  induction ps as [|p ps IH]; [discriminate|].
  cbn [forallb]. intros H. rewrite emitted_cons.
  pose proof (emitted_weight ps) as Hw.
  pose proof (rstrip_length CR p) as Hl.
  destruct (kept_verbatim p) eqn:Hp.
  - cbn [andb] in H. specialize (IH H).
    assert (truthy p = true) as ->
      by (unfold kept_verbatim in Hp; now apply andb_true_iff in Hp as [? _]).
    cbn [weight]. lia.
  - destruct (truthy p) eqn:Ht; cbn [weight].
    + pose proof (rstrip_shorter _ Ht Hp). lia.
    + lia.
Qed.

End SplitterFacts.

Import SplitterFacts.

(** C2 (as amended).  Fed any sequence of chunks from an empty buffer, the
    splitter keeps the text after the last line feed as the remainder, and
    emits the segments before it with empty segments dropped and trailing
    carriage returns stripped.  Lines (each followed by a line feed) and
    remainder give the input back exactly when no segment is empty or ends
    in a carriage return, and only then. *)
Theorem split_lines_round_trip (chunks : list str) :
  let input := List.concat chunks in
  let parts := split_on NL input in
  let out := feed_all [] chunks in
  rejoin (all_but_last parts) (last_part parts) = input
  /\ snd out = last_part parts
  /\ fst out = map (rstrip CR) (List.filter truthy (all_but_last parts))
  /\ (rejoin (fst out) (snd out) = input
      <-> forallb kept_verbatim (all_but_last parts) = true).
Proof.
  intros input parts out.
  assert (Hout : out = (emitted (all_but_last parts), last_part parts)).
  { unfold out. rewrite (feed_all_eq chunks [] eq_refl).
    cbn [app]. apply split_complete_lines_eq. }
  pose proof (rejoin_split_on input) as Hraw. fold parts in Hraw.
  rewrite Hout. cbn [fst snd]. repeat split; try assumption.
  - intros Heq. destruct (forallb kept_verbatim (all_but_last parts)) eqn:E;
      [reflexivity|exfalso].
    apply emitted_lighter in E.
    apply (f_equal (@List.length ascii)) in Heq.
    apply (f_equal (@List.length ascii)) in Hraw.
    rewrite rejoin_length in Heq, Hraw. lia.
  - intros E. now rewrite (emitted_kept _ E).
Qed.

(** C2, as the claim states it, fails: a carriage return before a line feed
    and an empty line are both lost, whatever the chunking. *)
Lemma split_lines_round_trip_fails :
  ~ (forall chunks : list str,
       let out := feed_all [] chunks in
       let back := rejoin (fst out) (snd out) in
       back = List.concat chunks
       \/ back ++ [NL] = List.concat chunks
       \/ back = List.concat chunks ++ [NL]).
Proof.
  intros H.
  specialize (H [txt "a" ++ [CR]; [NL; NL] ++ txt "b"]).
  vm_compute in H. destruct H as [H|[H|H]]; discriminate H.
Qed.

(** *** The order on floats *)

Module FloatOrder.










End FloatOrder.

Import FloatOrder.

(** *** Range building *)

Module RangeFacts.

Lemma in_insert_by_frame x h l :
  In x (insert_by_frame h l) <-> x = h \/ In x l.
Proof.
  induction l as [|y l IH]; cbn [insert_by_frame In]; [intuition congruence|].
  destruct (frame h <=? frame y); cbn [In]; [intuition congruence|].
  rewrite IH. tauto.
Qed.

Lemma in_sorted_by_frame x hits : In x (sorted_by_frame hits) <-> In x hits.
Proof.
  induction hits as [|h t IH]; [tauto|].
  change (sorted_by_frame (h :: t)) with (insert_by_frame h (sorted_by_frame t)).
  rewrite in_insert_by_frame, IH. cbn [In]. intuition congruence.
Qed.

Lemma insert_sorted_le h l :
  StronglySorted by_frame_le l -> StronglySorted by_frame_le (insert_by_frame h l).
Proof.
  induction 1 as [|y l Hs IH Hy]; cbn [insert_by_frame].
  - repeat constructor.
  - destruct (Z.leb_spec (frame h) (frame y)).
    + constructor; [now constructor|]. constructor; [assumption|].
      rewrite List.Forall_forall in *. intros z Hz. specialize (Hy z Hz).
      unfold by_frame_le in *. lia.
    + constructor; [assumption|]. rewrite List.Forall_forall in *.
      intros z Hz. apply in_insert_by_frame in Hz as [->|Hz];
        [unfold by_frame_le; lia|auto].
Qed.

Lemma sorted_by_frame_le hits : StronglySorted by_frame_le (sorted_by_frame hits).
Proof.
  induction hits as [|h t IH]; [constructor|].
  change (sorted_by_frame (h :: t)) with (insert_by_frame h (sorted_by_frame t)).
  now apply insert_sorted_le.
Qed.

Lemma insert_sorted_lt h l :
  (forall x, In x l -> frame x <> frame h) ->
  StronglySorted by_frame_lt l -> StronglySorted by_frame_lt (insert_by_frame h l).
Proof.
  intros Hne Hs. induction Hs as [|y l Hs IH Hy]; cbn [insert_by_frame].
  - repeat constructor.
  - pose proof (Hne y (or_introl eq_refl)) as Hy'.
    destruct (Z.leb_spec (frame h) (frame y)).
    + constructor; [now constructor|]. constructor; [unfold by_frame_lt; lia|].
      rewrite List.Forall_forall in *. intros z Hz. specialize (Hy z Hz).
      unfold by_frame_lt in *. lia.
    + constructor; [apply IH; intros; apply Hne; now right|].
      rewrite List.Forall_forall in *.
      intros z Hz. apply in_insert_by_frame in Hz as [->|Hz];
        [unfold by_frame_lt; lia|auto].
Qed.

Lemma sorted_by_frame_lt hits :
  List.NoDup (map frame hits) -> StronglySorted by_frame_lt (sorted_by_frame hits).
Proof.
  induction hits as [|h t IH]; [constructor|].
  cbn [map]. intros Hnd. inversion Hnd as [|? ? Hnotin Hnd']; subst.
  change (sorted_by_frame (h :: t)) with (insert_by_frame h (sorted_by_frame t)).
  apply insert_sorted_lt; [|now apply IH].
  intros x Hx Heq. apply Hnotin. apply (proj1 (in_sorted_by_frame x t)) in Hx.
  rewrite <- Heq. apply (List.in_map frame). exact Hx.
Qed.

(** *** The loop against the runs *)

Lemma group_runs_head h hs :
  exists g gs, group_runs (h :: hs) = (h :: g) :: gs.
Proof.
  cbn [group_runs]. destruct (group_runs hs) as [|[|h' g] gs]; eauto.
  destruct (frame h' =? frame h + 1); eauto.
Qed.

Lemma chain_snoc g a h :
  chain (g ++ [a]) -> frame h = frame a + 1 -> chain ((g ++ [a]) ++ [h]).
Proof.
  induction g as [|x g IH]; cbn [app chain]; [auto|].
  destruct g as [|y g]; cbn [app chain] in *; intuition.
Qed.

Lemma chain_app_last cur h :
  cur <> [] -> chain cur -> frame h = frame (List.last cur h) + 1 ->
  chain (cur ++ [h]).
Proof.
  intros Hne Hc Hf.
  destruct (exists_last Hne) as (g & a & ->).
  rewrite last_last in Hf. now apply chain_snoc.
Qed.

Lemma group_runs_chain cur :
  cur <> [] -> chain cur -> group_runs cur = [cur].
Proof.
  induction cur as [|a cur IH]; [congruence|]. intros _ Hc.
  destruct cur as [|b cur]; [reflexivity|].
  destruct Hc as [Hab Hc]. change (group_runs (a :: b :: cur)) with
    (match group_runs (b :: cur) with
     | (h' :: g) :: gs =>
         if frame h' =? frame a + 1 then (a :: h' :: g) :: gs
         else [a] :: (h' :: g) :: gs
     | _ => [[a]]
     end).
  rewrite IH by (congruence || assumption).
  rewrite Hab, Z.eqb_refl. reflexivity.
Qed.

Lemma group_runs_cut cur h rest :
  cur <> [] -> chain cur -> frame h <> frame (List.last cur h) + 1 ->
  group_runs (cur ++ h :: rest) = cur :: group_runs (h :: rest).
Proof.
  induction cur as [|a cur IH]; [congruence|]. intros _ Hc Hf.
  destruct (group_runs_head h rest) as (g & gs & E).
  destruct cur as [|b cur].
  - cbn [app]. cbn [List.last] in Hf.
    change (group_runs (a :: h :: rest)) with
      (match group_runs (h :: rest) with
       | (h' :: g) :: gs =>
           if frame h' =? frame a + 1 then (a :: h' :: g) :: gs
           else [a] :: (h' :: g) :: gs
       | _ => [[a]]
       end).
    rewrite E. apply Z.eqb_neq in Hf. now rewrite Hf.
  - destruct Hc as [Hab Hc].
    change (List.last (a :: b :: cur) h) with (List.last (b :: cur) h) in Hf.
    specialize (IH ltac:(congruence) Hc Hf).
    change ((a :: b :: cur) ++ h :: rest) with (a :: ((b :: cur) ++ h :: rest)).
    change (group_runs (a :: ((b :: cur) ++ h :: rest))) with
      (match group_runs ((b :: cur) ++ h :: rest) with
       | (h' :: g) :: gs =>
           if frame h' =? frame a + 1 then (a :: h' :: g) :: gs
           else [a] :: (h' :: g) :: gs
       | _ => [[a]]
       end).
    rewrite IH, Hab, Z.eqb_refl. reflexivity.
Qed.

Lemma append_range_omap m ranges g :
  append_range ranges (finalize m g) = ranges ++ ranges_of m [g].
Proof.
  unfold ranges_of. cbn [omap list_omap]. unfold append_range.
  destruct (finalize m g); [reflexivity|now rewrite app_nil_r].
Qed.

Lemma ranges_of_app m gs1 gs2 :
  ranges_of m (gs1 ++ gs2) = ranges_of m gs1 ++ ranges_of m gs2.
Proof. apply omap_app. Qed.

Lemma ranges_loop_runs m rest : forall cur ranges,
  cur <> [] -> chain cur ->
  let '(cur', ranges') := ranges_loop m rest cur ranges in
  append_range ranges' (finalize m cur')
  = ranges ++ ranges_of m (group_runs (cur ++ rest)).
Proof.
  induction rest as [|h rest IH]; intros cur ranges Hne Hc.
  - cbn [ranges_loop]. rewrite app_nil_r, (group_runs_chain cur Hne Hc).
    apply append_range_omap.
  - cbn [ranges_loop]. destruct (Z.eqb_spec (frame h) (frame (List.last cur h) + 1)) as [E|E].
    + specialize (IH (cur ++ [h]) ranges ltac:(now destruct cur)
                     (chain_app_last cur h Hne Hc E)).
      now rewrite <- app_assoc in IH.
    + specialize (IH [h] (append_range ranges (finalize m cur))
                     ltac:(congruence) I).
      destruct (ranges_loop m rest [h] (append_range ranges (finalize m cur)))
        as [cur' ranges'].
      rewrite IH, append_range_omap, (group_runs_cut cur h rest Hne Hc E).
      rewrite <- app_assoc.
      change (cur :: group_runs (h :: rest)) with ([cur] ++ group_runs (h :: rest)).
      now rewrite ranges_of_app.
Qed.

(** [build_ranges] finalizes the runs of the sorted hits, in order. *)
Lemma build_ranges_runs hits m :
  build_ranges hits m = ranges_of m (group_runs (sorted_by_frame hits)).
Proof.
  unfold build_ranges. destruct hits as [|h t]; [reflexivity|].
  destruct (sorted_by_frame (h :: t)) as [|h0 tl] eqn:E.
  - reflexivity.
  - pose proof (ranges_loop_runs m tl [h0] [] ltac:(congruence) I) as H.
    destruct (ranges_loop m tl [h0] []) as [cur ranges]. exact H.
Qed.

(** *** Runs of a sorted list *)

Lemma last_default {A : Type} (l : list A) (d d' : A) :
  l <> [] -> List.last l d = List.last l d'.
Proof.
  induction l as [|a l IH]; [congruence|]. intros _.
  destruct l as [|b l]; [reflexivity|].
  change (List.last (b :: l) d = List.last (b :: l) d'). apply IH. congruence.
Qed.

Lemma hi_cons h h' g : hi (h :: h' :: g) = hi (h' :: g).
Proof.
  unfold hi. change (List.last (h :: h' :: g) h) with (List.last (h' :: g) h).
  f_equal. apply last_default. congruence.
Qed.

Lemma chain_span g :
  g <> [] -> chain g -> hi g = lo g + Z.of_nat (List.length g) - 1.
Proof.
  induction g as [|a g IH]; [congruence|]. intros _ Hc.
  destruct g as [|b g].
  - cbn. lia.
  - destruct Hc as [Hab Hc]. rewrite hi_cons, IH by (congruence || assumption).
    cbn [lo List.length]. lia.
Qed.

Lemma chain_lo_hi g : g <> [] -> chain g -> lo g <= hi g.
Proof.
  intros Hn Hc. rewrite (chain_span g Hn Hc).
  destruct g; [congruence|]. cbn [List.length]. lia.
Qed.

(** Every run is a non-empty chain of hits of the list. *)
Lemma group_runs_wf hs :
  Forall (fun g => g <> [] /\ chain g /\ incl g hs) (group_runs hs).
Proof.
  induction hs as [|h hs IH]; [constructor|].
  cbn [group_runs].
  assert (Hmono : Forall (fun g => g <> [] /\ chain g /\ incl g (h :: hs))
                         (group_runs hs)).
  { eapply List.Forall_impl; [|exact IH]. cbn beta.
    intros g (? & ? & Hi). repeat split; try assumption.
    intros x Hx. right. now apply Hi. }
  assert (Hone : [h] <> [] /\ chain [h] /\ incl [h] (h :: hs)).
  { split; [congruence|]. split; [exact I|]. intros x [->|[]]. now left. }
  destruct (group_runs hs) as [|[|h' g] gs] eqn:E.
  - constructor; [exact Hone|constructor].
  - constructor; [exact Hone|constructor].
  - apply List.Forall_cons_iff in Hmono as [(_ & Hc & Hi) Hgs].
    destruct (Z.eqb_spec (frame h') (frame h + 1)) as [Eq|Ne].
    + constructor; [|exact Hgs]. split; [congruence|]. split.
      * split; assumption.
      * intros x [->|Hx]; [now left|now apply Hi].
    + constructor; [exact Hone|]. constructor; [|exact Hgs].
      split; [congruence|]. split; assumption.
Qed.

Lemma group_runs_concat hs : List.concat (group_runs hs) = hs.
Proof.
  induction hs as [|h hs IH]; [reflexivity|].
  cbn [group_runs]. destruct (group_runs hs) as [|[|h' g] gs] eqn:E.
  - cbn in *. now subst.
  - pose proof (group_runs_wf hs) as Hwf. rewrite E in Hwf.
    apply List.Forall_cons_iff in Hwf as [(Hn & _) _]. congruence.
  - destruct (frame h' =? frame h + 1); cbn in *; now rewrite IH.
Qed.

Lemma group_runs_maximal hs : cut_between (group_runs hs).
Proof.
  induction hs as [|h hs IH]; [exact I|].
  cbn [group_runs]. destruct (group_runs hs) as [|[|h' g] gs] eqn:E; try exact I.
  destruct (Z.eqb_spec (frame h') (frame h + 1)) as [Eq|Ne].
  - destruct gs as [|g2 gs]; [exact I|].
    destruct IH as [H1 H2]. split; [|exact H2]. now rewrite hi_cons.
  - split; [|exact IH]. cbn [lo hi List.last]. exact Ne.
Qed.

(** In a sorted list, a run ends no later than any following run starts. *)
Lemma group_runs_sorted_le hs :
  StronglySorted by_frame_le hs ->
  StronglySorted (fun g1 g2 => hi g1 <= lo g2) (group_runs hs).
Proof.
  induction 1 as [|h hs Hs IH Hh]; [constructor|].
  pose proof (group_runs_wf hs) as Hwf. cbn [group_runs].
  assert (Hlow : Forall (fun g => frame h <= lo g) (group_runs hs)).
  { eapply List.Forall_impl; [|exact Hwf]. cbn beta.
    intros [|x g] (Hn & _ & Hi); [congruence|]. cbn [lo].
    rewrite List.Forall_forall in Hh. apply (Hh x), Hi. now left. }
  destruct (group_runs hs) as [|[|h' g] gs] eqn:E.
  - repeat constructor.
  - repeat constructor.
  - inversion IH as [|? ? IH1 IH2]; subst.
    destruct (frame h' =? frame h + 1).
    + constructor; [exact IH1|]. eapply List.Forall_impl; [|exact IH2].
      cbn beta. intros g2. now rewrite hi_cons.
    + constructor; [exact IH|exact Hlow].
Qed.

(** Without repeated frames, consecutive runs leave a frame between them. *)
Lemma group_runs_sorted_lt hs :
  StronglySorted by_frame_lt hs ->
  StronglySorted (fun g1 g2 => hi g1 + 1 < lo g2) (group_runs hs).
Proof.
  induction 1 as [|h hs Hs IH Hh]; [constructor|].
  pose proof (group_runs_wf hs) as Hwf. cbn [group_runs].
  destruct (group_runs hs) as [|[|h' g] gs] eqn:E.
  - repeat constructor.
  - repeat constructor.
  - inversion IH as [|? ? IH1 IH2]; subst.
    apply List.Forall_cons_iff in Hwf as [(_ & Hc & Hi) Hgs].
    destruct (Z.eqb_spec (frame h') (frame h + 1)) as [Eq|Ne].
    + constructor; [exact IH1|]. eapply List.Forall_impl; [|exact IH2].
      cbn beta. intros g2. now rewrite hi_cons.
    + constructor; [exact IH|].
      assert (Hh' : frame h < frame h').
      { rewrite List.Forall_forall in Hh. apply (Hh h'), Hi. now left. }
      pose proof (chain_lo_hi (h' :: g) ltac:(congruence) Hc) as Hspan.
      cbn [lo] in Hspan.
      constructor; [cbn [hi lo List.last]; lia|].
      eapply List.Forall_impl; [|exact IH2]. cbn beta. intros g2 Hg2.
      cbn [hi List.last]. lia.
Qed.

(** *** What [finalize] returns *)

Lemma finalize_some m g r :
  finalize m g = Some r ->
  g <> []
  /\ start_frame r = lo g /\ end_frame r = hi g
  /\ length_frames r = hi g - lo g + 1
  /\ m <= length_frames r.
Proof.
  destruct g as [|a g]; [discriminate|]. unfold finalize, lo, hi.
  set (e := List.last (a :: g) a).
  destruct (Z.ltb_spec (frame e - frame a + 1) m); [discriminate|].
  intros [= <-]. cbn [start_frame end_frame length_frames].
  repeat split; (congruence || lia).
Qed.

Lemma strongly_sorted_omap {A B : Type} (f : A -> option B)
    (R : A -> A -> Prop) (R' : B -> B -> Prop) (l : list A) :
  (forall a b x y, R a b -> f a = Some x -> f b = Some y -> R' x y) ->
  StronglySorted R l -> StronglySorted R' (omap f l).
Proof.
  intros HR. induction 1 as [|a l Hs IH Ha]; [constructor|].
  cbn [omap list_omap]. destruct (f a) as [x|] eqn:E; [|exact IH].
  constructor; [exact IH|]. rewrite List.Forall_forall in *.
  intros y Hy. apply list_elem_of_In, list_elem_of_omap in Hy as (b & Hb & Hfb).
  apply list_elem_of_In in Hb. eauto.
Qed.

Lemma forall_omap {A B : Type} (f : A -> option B) (P : B -> Prop) (l : list A) :
  (forall a x, In a l -> f a = Some x -> P x) -> Forall P (omap f l).
Proof.
  intros H. rewrite List.Forall_forall. intros x Hx.
  apply list_elem_of_In, list_elem_of_omap in Hx as (a & Ha & Hfa).
  apply list_elem_of_In in Ha. eauto.
Qed.

End RangeFacts.

Import RangeFacts.

(** C3 (as amended).  Every range [build_ranges] emits has
    [length_frames = end_frame - start_frame + 1] and
    [length_frames >= min_run_frames]; the ranges are sorted by start frame
    and each ends no later than the next one starts; when no frame index
    occurs twice among the detections, no two ranges overlap. *)
Theorem build_ranges_invariants (hits : list BlackFrameHit) (m : Z) :
  let rs := build_ranges hits m in
  Forall (fun r => length_frames r = end_frame r - start_frame r + 1
                   /\ m <= length_frames r) rs
  /\ StronglySorted (fun a b => start_frame a <= start_frame b
                                /\ end_frame a <= start_frame b) rs
  /\ (List.NoDup (map frame hits) ->
      StronglySorted (fun a b => end_frame a < start_frame b) rs).
Proof.
  cbn zeta. rewrite build_ranges_runs. unfold ranges_of. repeat split.
  - apply forall_omap. intros g r _ Hr.
    apply finalize_some in Hr as (_ & -> & -> & -> & ?). split; [lia|assumption].
  - pose proof (sorted_by_frame_le hits) as Hs.
    pose proof (group_runs_wf (sorted_by_frame hits)) as Hwf.
    rewrite List.Forall_forall in Hwf.
    pose proof (group_runs_sorted_le _ Hs) as Hg.
    assert (Hg' : StronglySorted
                    (fun g1 g2 => (g1 <> [] /\ chain g1) /\ hi g1 <= lo g2)
                    (group_runs (sorted_by_frame hits))).
    { clear Hs. induction Hg as [|g gs Hgs IH Hall]; constructor.
      - apply IH. intros x Hx. apply Hwf. now right.
      - eapply List.Forall_impl; [|exact Hall]. cbn beta. intros g2 ?.
        destruct (Hwf g (or_introl eq_refl)) as (? & ? & _). auto. }
    eapply strongly_sorted_omap; [|exact Hg']. cbn beta.
    intros g1 g2 r1 r2 ((Hn & Hc) & Hle) H1 H2.
    apply finalize_some in H1 as (_ & -> & -> & _).
    apply finalize_some in H2 as (_ & -> & _).
    pose proof (chain_lo_hi g1 Hn Hc). lia.
  - intros Hnd.
    pose proof (group_runs_sorted_lt _ (sorted_by_frame_lt hits Hnd)) as Hg.
    eapply strongly_sorted_omap; [|exact Hg]. cbn beta.
    intros g1 g2 r1 r2 Hlt H1 H2.
    apply finalize_some in H1 as (_ & _ & -> & _).
    apply finalize_some in H2 as (_ & -> & _). lia.
Qed.

Lemma build_ranges_invariants_witness :
  StronglySorted (fun a b => end_frame a < start_frame b)
    (build_ranges (map hit_at [7; 3; 4; 9]) 1).
Proof.
  apply (proj2 (proj2 (build_ranges_invariants (map hit_at [7; 3; 4; 9]) 1))).
  cbn. repeat constructor; cbn; intuition discriminate.
Defined.

(** C3, as the claim states it, fails: with a frame index reported twice
    the second range starts on the frame the first one ends on. *)
Lemma build_ranges_overlap :
  ~ (forall (hits : list BlackFrameHit) (m : Z),
       StronglySorted (fun a b => start_frame a <= start_frame b
                                  /\ end_frame a < start_frame b)
                      (build_ranges hits m)).
Proof.
  intros H. specialize (H (map hit_at [5; 5; 6]) 1).
  apply StronglySorted_inv in H as [_ Hall].
  apply List.Forall_inv in Hall. destruct Hall as [_ Hlt].
  vm_compute in Hlt. discriminate Hlt.
Qed.

(** C5.  Detections at frames 10, 11, 12, 15, 16, whatever else they
    carry: with [min_run_frames = 1] exactly the ranges 10-12 (length 3)
    and 15-16 (length 2), in that order; with [min_run_frames = 3] exactly
    the range 10-12. *)
Theorem build_ranges_example (hits : list BlackFrameHit) :
  map frame hits = [10; 11; 12; 15; 16] ->
  map (fun r => (start_frame r, end_frame r, length_frames r))
      (build_ranges hits 1) = [(10, 12, 3); (15, 16, 2)]
  /\ map (fun r => (start_frame r, end_frame r, length_frames r))
         (build_ranges hits 3) = [(10, 12, 3)].
Proof.
  intros H.
  destruct hits as [|[f1 ? ? ?] [|[f2 ? ? ?] [|[f3 ? ? ?] [|[f4 ? ? ?]
    [|[f5 ? ? ?] [|? ?]]]]]]; try discriminate H.
  cbn in H. injection H as -> -> -> -> ->.
  split; reflexivity.
Qed.

Lemma build_ranges_example_witness :
  map (fun r => (start_frame r, end_frame r, length_frames r))
      (build_ranges (map hit_at [10; 11; 12; 15; 16]) 1)
    = [(10, 12, 3); (15, 16, 2)]
  /\ map (fun r => (start_frame r, end_frame r, length_frames r))
         (build_ranges (map hit_at [10; 11; 12; 15; 16]) 3) = [(10, 12, 3)].
Proof.
  apply (build_ranges_example (map hit_at [10; 11; 12; 15; 16])). reflexivity.
Defined.

(** *** Blackness of a range *)




(** A run with one blackness value missing: the mean and the minimum are
    taken over the two values that are there. *)
Example build_ranges_blackness_example :
  map (fun r => (avg_pblack r, min_pblack r))
      (build_ranges [hit_with 10 (Some 90%float); hit_with 11 None;
                     hit_with 12 (Some 100%float)] 1)
  = [(Some 95%float, Some 90%float)].
Proof. vm_compute. reflexivity. Qed.

(** *** Progress *)

Module ProgressFacts.

Lemma ltb_true_leb x y : PrimFloat.ltb x y = true -> PrimFloat.leb x y = true.
Proof.
  rewrite FloatAxioms.ltb_spec, FloatAxioms.leb_spec. unfold SFltb, SFleb.
  destruct (SFcompare _ _) as [[]|]; congruence.
Qed.

Lemma eqb_true_leb x y : PrimFloat.eqb x y = true -> PrimFloat.leb x y = true.
Proof.
  rewrite FloatAxioms.eqb_spec, FloatAxioms.leb_spec. unfold SFeqb, SFleb.
  destruct (SFcompare _ _) as [[]|]; congruence.
Qed.


(** Running the slots: the monad operations unfold to state passing. *)
Ltac run :=
  unfold exec, escaped, skip, lift, raise, modify, get;
  unfold mbind, mret, M_bind, M_ret; cbn beta iota.


End ProgressFacts.

Import ProgressFacts.



(** C9.  [_update_progress_eta] leaves the progress text alone when the
    fraction is not above zero, and when less than half a second has
    passed since the analysis started; otherwise the text it sets is made
    from [remaining = max(0, elapsed / frac - elapsed)], which is never
    below zero. *)
Theorem eta_suppressed_or_remaining (s : state) (now frac : float) :
  (PrimFloat.leb frac 0 = true ->
   _update_progress_eta now frac s = (Ok tt, s))
  /\ (forall t0,
        _analysis_start_time s = Some t0 ->
        PrimFloat.ltb (PrimFloat.sub now t0) 0.5 = true ->
        _update_progress_eta now frac s = (Ok tt, s))
  /\ (forall t0 path pct,
        _analysis_start_time s = Some t0 ->
        PrimFloat.leb frac 0 = false ->
        PrimFloat.ltb (PrimFloat.sub now t0) 0.5 = false ->
        _file_queue s !! _current_queue_index s = Some path ->
        let elapsed := PrimFloat.sub now t0 in
        let remaining :=
          py_max2 0 (PrimFloat.sub (PrimFloat.div elapsed frac) elapsed) in
        PrimFloat.is_finite remaining = true ->
        int_of_float (PrimFloat.mul frac 100) = Ok pct ->
        _update_progress_eta now frac s =
          (Ok tt,
           set_progress_format
             (FmtEta (S (_current_queue_index s)) (List.length (_file_queue s))
                     path pct remaining) s)
        /\ PrimFloat.leb 0 remaining = true).
Proof.
  unfold _update_progress_eta. run. split; [|split].
  - intros H. destruct (_analysis_start_time s); [|reflexivity]. now rewrite H.
  - intros t0 -> H. destruct (PrimFloat.leb frac 0); [reflexivity|]. now rewrite H.
  - intros t0 path pct Ht0 Hfrac Hwarm Hpath. cbv zeta. intros Hfin Hpct.
    split.
    + rewrite Ht0, Hfrac, Hwarm, Hpath. unfold float_truediv.
      destruct (PrimFloat.eqb frac 0) eqn:E.
      * apply eqb_true_leb in E. congruence.
      * cbn beta iota. rewrite Hfin. cbn beta iota. rewrite Hpct. reflexivity.
    + unfold py_max2.
      destruct (PrimFloat.ltb 0 _) eqn:E; [now apply ltb_true_leb|reflexivity].
Qed.

Lemma eta_suppressed_or_remaining_witness :
  _update_progress_eta 110 0.25 (analysing "a.mp4" [] "5.0" "25/1" 100)
  = (Ok tt, set_progress_format (FmtEta 1 1 "a.mp4" 25 30)
              (analysing "a.mp4" [] "5.0" "25/1" 100)).
Proof.
  apply (proj2 (proj2 (eta_suppressed_or_remaining
           (analysing "a.mp4" [] "5.0" "25/1" 100) 110 0.25))
           100%float "a.mp4"%string 25);
    vm_compute; reflexivity.
Defined.

(** C10, at the input where the code fails it.  The probe reports a
    duration of half a microsecond: it is known and above zero, so the
    guard lets the progress line through, the duration in whole
    microseconds is zero, and the division raises. *)
Theorem sub_microsecond_duration_divides_by_zero :
  let s := analysing "a.mp4" [] "0.0000005" "25/1" 100 in
  duration_known_positive s = true
  /\ (exists d, video_duration_s s = Some d
                /\ int_of_float (PrimFloat.mul d 1000000) = Ok 0)
  /\ escaped (_on_ffmpeg_stdout_chunk 101 (txt "out_time_ms=1" ++ [NL])) s
     = Some ZeroDivisionError.
Proof.
  cbn zeta. split; [vm_compute; reflexivity|]. split.
  - eexists. split; vm_compute; reflexivity.
  - vm_compute. reflexivity.
Qed.

(** The guard itself: with the duration unknown, zero or negative a
    progress line changes nothing and raises nothing. *)
Lemma progress_line_skipped s now line :
  duration_known_positive s = false ->
  stdout_line now line s = (Ok tt, s).
Proof.
  intros H. unfold stdout_line. run. rewrite H.
  unfold duration_known_positive in H.
  destruct (video_duration_s s) as [d|].
  - rewrite H. destruct (match_out_time_ms line), (match_progress_end line);
      reflexivity.
  - destruct (match_out_time_ms line), (match_progress_end line); reflexivity.
Qed.

Section ProbeFacts.
Context (json_loads : str -> option json) (str_to_float : str -> option float).

Lemma frame_rate_of_zero num den z :
  str_to_float den = Some z -> PrimFloat.eqb z 0 = true ->
  frame_rate_of str_to_float num den = Ok None.
Proof.
  intros H1 H2. unfold frame_rate_of, py_float. rewrite H1.
  unfold mbind, result_bind. now rewrite H2.
Qed.

(** C8.  When the frame rate text of the first stream splits at its
    slash into a numerator and a denominator whose [float] is zero,
    [read_frame_rate] raises nothing and leaves the frame rate absent. *)
Theorem zero_denominator_frame_rate
    (data streams stream : json) (rate num den : str) (z : float) (s : state) :
  py_item data (txt "streams") = Ok streams ->
  py_first streams = Ok stream ->
  frame_rate_text stream = Ok (JStr rate) ->
  split_on "/"%char rate = [num; den] ->
  str_to_float den = Some z ->
  PrimFloat.eqb z 0 = true ->
  read_frame_rate str_to_float data s = (Ok tt, set_video_fps None s).
Proof.
  intros H1 H2 H3 H4 H5 H6. unfold read_frame_rate. run.
  rewrite H1. cbn beta iota. rewrite H2. cbn beta iota. rewrite H3.
  cbn beta iota. cbn [py_split_slash]. rewrite H4. cbn [unpack2 fst snd].
  now rewrite (frame_rate_of_zero num den z H5 H6).
Qed.

End ProbeFacts.

Lemma zero_denominator_frame_rate_witness :
  read_frame_rate float_of_numeral (report "5.0" "0/0") (initial ["a.mp4"%string])
  = (Ok tt, set_video_fps None (initial ["a.mp4"%string])).
Proof.
  apply (zero_denominator_frame_rate float_of_numeral (report "5.0" "0/0")
           (JList [JDict [(txt "avg_frame_rate", JStr (txt "0/0"))]])
           (JDict [(txt "avg_frame_rate", JStr (txt "0/0"))])
           (txt "0/0") (txt "0") (txt "0") 0%float);
    vm_compute; reflexivity.
Defined.

(** *** The batch *)

Module BatchFacts.



(** Case analysis on whatever the slot branches on next. *)
Ltac branch :=
  repeat (cbn beta iota zeta;
          match goal with
          | |- context [match ?x with _ => _ end] =>
              lazymatch type of x with
              | prod _ _ => fail
              | result _ => fail
              | _ => destruct x eqn:?
              end
          end).

Lemma all_files_finished_closes now s s' :
  s' = exec (_on_all_files_finished now) s ->
  _queue_active s' = false /\ _running s' = false
  /\ all_hits s' = all_hits s /\ all_ranges s' = all_ranges s
  /\ _current_queue_index s' = _current_queue_index s
  /\ file_list s' = file_list s
  /\ exists more, status_label s' = status_label s ++ more.
Proof.
  unfold _on_all_files_finished, _set_running_ui, _set_progress_determinate,
    _render_all_frames_table, _render_all_ranges_table, _append_status_line,
    _finalize_exports_state, seconds_to_hhmmssms.
  intros ->. run. branch; cbn; repeat (split; [reflexivity|]);
    first [ eexists; reflexivity | exists []; now rewrite app_nil_r ].
Qed.



#[local] Arguments _record_failure_and_advance : simpl never.
#[local] Arguments _start_next_file : simpl never.
#[local] Arguments _on_all_files_finished : simpl never.
#[local] Arguments _parse_blackframe_line : simpl never.
#[local] Arguments rstrip : simpl never.
#[local] Arguments sorted_by_frame : simpl never.
#[local] Arguments build_ranges : simpl never.



Lemma bind_ok {A B : Type} (m : M A) (k : A -> M B) s a s1 :
  m s = (Ok a, s1) -> (m ≫= k) s = k a s1.
Proof. intros H. unfold mbind, M_bind. now rewrite H. Qed.





End BatchFacts.

Import BatchFacts.


(** *** The end of an analysis *)

Module StdoutFacts.

#[local] Arguments _parse_blackframe_line : simpl never.
#[local] Arguments rstrip : simpl never.
#[local] Arguments sorted_by_frame : simpl never.
#[local] Arguments build_ranges : simpl never.
#[local] Arguments Nat.min : simpl never.
#[local] Arguments take : simpl never.
#[local] Arguments drop : simpl never.

Lemma ignores_forgets {A : Type} (m : M A) :
  ignores_stdout_buf m -> forgets_stdout_buf m.
Proof. intros H b s. rewrite H. split; reflexivity. Qed.

Lemma ignores_bind {A B : Type} (m : M A) (k : A -> M B) :
  ignores_stdout_buf m -> (forall a, ignores_stdout_buf (k a)) ->
  ignores_stdout_buf (m ≫= k).
Proof.
  intros Hm Hk b s. unfold mbind, M_bind. rewrite Hm.
  destruct (m s) as [[a|e] s1]; cbn [fst snd]; [apply Hk|reflexivity].
Qed.











End StdoutFacts.

Import StdoutFacts.






(** The tail of the error stream of [mid_analysis] is the sample hit. *)
Example tail_hits_sample :
  tail_hits mid_analysis
  = [mkHit 23 (Some (float_of_decimal (txt "0") (txt "920000")))
           (Some 100%float) (Some 27600)]
  /\ hits mid_analysis = [].
Proof. vm_compute. split; reflexivity. Qed.

(** A report with the rate "0/0": the analysis starts with the duration
    known and no frame rate. *)
Example zero_rate_probe :
  let s := analysing "a.mp4" [] "5.0" "0/0" 100 in
  video_fps s = None /\ video_duration_s s = Some 5%float
  /\ ffmpeg_proc s = Some (mkProcess "a.mp4" false).
Proof. vm_compute. repeat split. Qed.

(** Three files, the second analysis failing: the batch runs to its
    summary, the failed file has no results and the others have theirs. *)
Example second_of_three_fails :
  status_label three_file_batch
  = [LineResult "a.mp4" 1 1; LineFailed "b.mp4" "FAILED";
     LineResult "c.mp4" 1 1; LineSummary 3 2 2 (Some 15%float) (Some 10%float)]
  /\ all_hits three_file_batch !! "b.mp4"%string = Some []
  /\ List.length (default [] (all_hits three_file_batch !! "a.mp4"%string)) = 1%nat
  /\ List.length (default [] (all_hits three_file_batch !! "c.mp4"%string)) = 1%nat
  /\ _running three_file_batch = false.
Proof. vm_compute. repeat split. Qed.

(* ===================================================================== *)
(** ** Further properties *)
(* ===================================================================== *)

(** *** The lines the splitter hands over *)

Module ShapeFacts.
Import LineShape.

Lemma split_on_parts_no_sep s :
  Forall (fun p => contains NL p = false) (split_on NL s).
Proof.
  induction s as [|c s IH]; [repeat constructor|].
  destruct (ascii_dec c NL) as [->|Hc].
  - rewrite split_on_cons_sep. constructor; [reflexivity|exact IH].
  - destruct (split_on_cons_other NL c s Hc) as (p & ps & E1 & E2).
    rewrite E2. rewrite E1 in IH.
    apply List.Forall_cons_iff in IH as [Hp Hps].
    constructor; [|exact Hps]. unfold contains in *. cbn [existsb].
    apply Ascii.eqb_neq in Hc. now rewrite Ascii.eqb_sym, Hc.
Qed.

Lemma forall_removelast {A : Type} (P : A -> Prop) (l : list A) :
  Forall P l -> Forall P (removelast l).
Proof.
  induction 1 as [|a l Ha Hl IH]; [constructor|].
  destruct l as [|b l]; [constructor|].
  change (removelast (a :: b :: l)) with (a :: removelast (b :: l)).
  now constructor.
Qed.

Lemma rstrip_cons ch c s :
  rstrip ch (c :: s) =
    match rstrip ch s with
    | [] => if Ascii.eqb c ch then [] else [c]
    | r => c :: r
    end.
Proof. reflexivity. Qed.

Lemma rstrip_no_sep ch s :
  contains NL s = false -> contains NL (rstrip ch s) = false.
Proof.
  unfold contains. induction s as [|c s IH]; [reflexivity|].
  cbn [existsb]. intros H. apply orb_false_iff in H as [H1 H2].
  rewrite rstrip_cons. specialize (IH H2).
  destruct (rstrip ch s) as [|d r].
  - destruct (Ascii.eqb c ch); [reflexivity|]. cbn [existsb]. now rewrite H1.
  - cbn [existsb] in *. now rewrite H1, IH.
Qed.

Lemma rstrip_last ch d s : d <> ch -> List.last (rstrip ch s) d <> ch.
Proof.
  intros Hd. induction s as [|c s IH]; [exact Hd|].
  rewrite rstrip_cons. destruct (rstrip ch s) as [|e r].
  - destruct (Ascii.eqb_spec c ch); [exact Hd|]. cbn. assumption.
  - exact IH.
Qed.

End ShapeFacts.

Import LineShape ShapeFacts.

(** X1.  Whatever the buffer holds, the lines the splitter returns contain
    no line feed and do not end in a carriage return, and the remainder
    contains no line feed, so that splitting the remainder again returns
    no line and the same remainder. *)
Theorem split_complete_lines_shape (buf : str) :
  let out := _split_complete_lines buf in
  Forall clean_line (fst out)
  /\ contains NL (snd out) = false
  /\ _split_complete_lines (snd out) = ([], snd out).
Proof.
  cbn zeta. rewrite split_complete_lines_eq. cbn [fst snd].
  pose proof (last_part_no_sep buf) as Hrest.
  split; [|split; [exact Hrest|]].
  - rewrite List.Forall_forall. intros l Hl.
    apply in_map_iff in Hl as (p & <- & Hp).
    apply List.filter_In in Hp as [Hp _].
    pose proof (forall_removelast _ _ (split_on_parts_no_sep buf)) as Hall.
    rewrite List.Forall_forall in Hall. specialize (Hall p Hp). cbn beta in Hall.
    split.
    + now apply rstrip_no_sep.
    + apply rstrip_last. discriminate.
  - unfold _split_complete_lines at 1. now rewrite Hrest.
Qed.

(** *** What the ranges cover *)

Module CoverFacts.
Import RangeCover.

Lemma finalize_raise m m' g :
  m' <= m ->
  finalize m g =
    match finalize m' g with
    | Some r => if m <=? length_frames r then Some r else None
    | None => None
    end.
Proof.
  intros Hm. destruct g as [|a g]; [reflexivity|]. unfold finalize.
  set (e := List.last (a :: g) a).
  destruct (Z.ltb_spec (frame e - frame a + 1) m');
    destruct (Z.ltb_spec (frame e - frame a + 1) m); try lia; try reflexivity.
  - cbn [length_frames]. destruct (Z.leb_spec m (frame e - frame a + 1)); [lia|reflexivity].
  - cbn [length_frames]. destruct (Z.leb_spec m (frame e - frame a + 1)); [reflexivity|lia].
Qed.

Lemma ranges_of_raise m m' gs :
  m' <= m ->
  ranges_of m gs = List.filter (fun r => m <=? length_frames r) (ranges_of m' gs).
Proof.
  intros Hm. unfold ranges_of. induction gs as [|g gs IH]; [reflexivity|].
  cbn [omap list_omap]. rewrite (finalize_raise m m' g Hm).
  destruct (finalize m' g) as [r|]; [|exact IH].
  cbn [List.filter]. destruct (m <=? length_frames r); [now rewrite IH|exact IH].
Qed.

Lemma finalize_ends m g r :
  finalize m g = Some r ->
  exists a, head g = Some a
    /\ start_frame r = frame a /\ start_time_s r = time_s a
    /\ end_frame r = frame (List.last g a) /\ end_time_s r = time_s (List.last g a).
Proof.
  destruct g as [|a g]; [discriminate|]. unfold finalize.
  set (e := List.last (a :: g) a).
  destruct (frame e - frame a + 1 <? m); [discriminate|].
  intros [= <-]. exists a. cbn. repeat split; reflexivity.
Qed.

Lemma last_in {A : Type} (l : list A) (d : A) : l <> [] -> In (List.last l d) l.
Proof.
  induction l as [|a l IH]; [congruence|]. intros _.
  destruct l as [|b l]; [now left|]. right.
  change (List.last (a :: b :: l) d) with (List.last (b :: l) d).
  apply IH. congruence.
Qed.

(** A run holds a hit for every frame from its first to its last. *)
Lemma chain_covers g :
  g <> [] -> chain g ->
  forall f, lo g <= f <= hi g -> exists h, In h g /\ frame h = f.
Proof.
  induction g as [|a g IH]; [congruence|]. intros _ Hc f Hf.
  destruct g as [|b g].
  - cbn in Hf. exists a. split; [now left|lia].
  - destruct Hc as [Hab Hc]. rewrite hi_cons in Hf. cbn [lo] in Hf.
    destruct (Z.eq_dec f (frame a)) as [->|Hne].
    + exists a. split; [now left|reflexivity].
    + destruct (IH ltac:(congruence) Hc f) as (h & Hin & Hh).
      { cbn [lo]. lia. }
      exists h. split; [now right|assumption].
Qed.

(** Every hit of a run lies between its first and its last frame. *)
Lemma chain_bounds g :
  chain g -> forall h, In h g -> lo g <= frame h <= hi g.
Proof.
  induction g as [|a g IH]; [intros _ h []|]. intros Hc h Hin.
  destruct g as [|b g].
  - destruct Hin as [->|[]]. cbn. lia.
  - destruct Hc as [Hab Hc]. rewrite hi_cons. cbn [lo].
    pose proof (chain_lo_hi (b :: g) ltac:(congruence) Hc) as Hspan. cbn [lo] in Hspan.
    destruct Hin as [->|Hin]; [lia|].
    specialize (IH Hc h Hin). cbn [lo] in IH. lia.
Qed.

Lemma insert_by_frame_length h l :
  List.length (insert_by_frame h l) = S (List.length l).
Proof.
  induction l as [|x l IH]; [reflexivity|]. cbn [insert_by_frame].
  destruct (frame h <=? frame x); cbn [List.length]; [reflexivity|now rewrite IH].
Qed.

Lemma sorted_by_frame_length hits :
  List.length (sorted_by_frame hits) = List.length hits.
Proof.
  induction hits as [|h t IH]; [reflexivity|].
  change (sorted_by_frame (h :: t)) with (insert_by_frame h (sorted_by_frame t)).
  now rewrite insert_by_frame_length, IH.
Qed.

(** A run that is kept counts as many frames as it holds hits. *)
Lemma finalize_length m g r :
  g <> [] -> chain g -> finalize m g = Some r ->
  length_frames r = Z.of_nat (List.length g).
Proof.
  intros Hn Hc Hr. apply finalize_some in Hr as (_ & _ & _ & -> & _).
  rewrite (chain_span g Hn Hc). lia.
Qed.

Lemma finalize_kept m g :
  g <> [] -> chain g -> m <= 1 -> exists r, finalize m g = Some r.
Proof.
  intros Hn Hc Hm. pose proof (chain_lo_hi g Hn Hc) as Hspan.
  destruct g as [|a g]; [congruence|]. unfold finalize.
  unfold lo, hi in Hspan.
  set (e := List.last (a :: g) a) in *.
  destruct (Z.ltb_spec (frame e - frame a + 1) m); [lia|eauto].
Qed.

Lemma total_length_runs m gs :
  Forall (fun g => g <> [] /\ chain g) gs ->
  total_length (ranges_of m gs) <= Z.of_nat (List.length (List.concat gs))
  /\ (m <= 1 ->
      total_length (ranges_of m gs) = Z.of_nat (List.length (List.concat gs))).
Proof.
  unfold ranges_of. induction 1 as [|g gs [Hn Hc] Hgs [IH1 IH2]].
  - cbn. split; [lia|reflexivity].
  - cbn [omap list_omap List.concat]. rewrite List.length_app, Nat2Z.inj_add.
    split.
    + destruct (finalize m g) as [r|] eqn:E.
      * cbn [total_length fold_right]. fold (total_length (omap (finalize m) gs)).
        rewrite (finalize_length m g r Hn Hc E). lia.
      * lia.
    + intros Hm. destruct (finalize_kept m g Hn Hc Hm) as (r & E). rewrite E.
      cbn [total_length fold_right]. fold (total_length (omap (finalize m) gs)).
      rewrite (finalize_length m g r Hn Hc E), (IH2 Hm). reflexivity.
Qed.

(** Two lists in strictly increasing frame order that hold the same hits
    are the same list. *)
Lemma sorted_lt_unique l1 : forall l2,
  StronglySorted by_frame_lt l1 -> StronglySorted by_frame_lt l2 ->
  (forall x, In x l1 <-> In x l2) -> l1 = l2.
Proof.
  induction l1 as [|a l1 IH]; intros l2 H1 H2 Hin.
  - destruct l2 as [|b l2]; [reflexivity|].
    exfalso. apply (proj2 (Hin b)). now left.
  - destruct l2 as [|b l2].
    { exfalso. apply (proj1 (Hin a)). now left. }
    apply StronglySorted_inv in H1 as [H1 Ha].
    apply StronglySorted_inv in H2 as [H2 Hb].
    rewrite List.Forall_forall in Ha, Hb. unfold by_frame_lt in Ha, Hb.
    assert (a = b) as <-.
    { destruct (proj1 (Hin a) (or_introl eq_refl)) as [E|Ea]; [now symmetry|].
      destruct (proj2 (Hin b) (or_introl eq_refl)) as [E|Eb]; [assumption|].
      specialize (Ha b Eb). specialize (Hb a Ea). lia. }
    f_equal. apply IH; try assumption.
    intros x. split; intros Hx.
    + destruct (proj1 (Hin x) (or_intror Hx)) as [E|Hx']; [|assumption].
      subst x. specialize (Ha a Hx). lia.
    + destruct (proj2 (Hin x) (or_intror Hx)) as [E|Hx']; [|assumption].
      subst x. specialize (Hb a Hx). lia.
Qed.

End CoverFacts.

Import RangeCover CoverFacts.

(** X2.  Raising the minimum run length only removes ranges: the ranges
    for [m] are the ranges for any smaller [m'] with a length of at least
    [m], unchanged and in the same order. *)
Theorem build_ranges_min_run_filters (hits : list BlackFrameHit) (m m' : Z) :
  m' <= m ->
  build_ranges hits m
  = List.filter (fun r => m <=? length_frames r) (build_ranges hits m').
Proof.
  intros Hm. rewrite !build_ranges_runs. now apply ranges_of_raise.
Qed.

Lemma build_ranges_min_run_filters_witness :
  build_ranges (map hit_at [10; 11; 12; 15; 16]) 3
  = List.filter (fun r => 3 <=? length_frames r)
      (build_ranges (map hit_at [10; 11; 12; 15; 16]) 1).
Proof.
  apply (build_ranges_min_run_filters (map hit_at [10; 11; 12; 15; 16]) 3 1). lia.
Defined.

(** X3.  A range never reaches over a frame that was not detected: every
    frame from its start to its end is the frame of a hit, and a hit
    stands at each end and gives the range its start and end time. *)
Theorem build_ranges_only_detected (hits : list BlackFrameHit) (m : Z) :
  Forall (fun r =>
            (forall f, inside f r -> exists h, In h hits /\ frame h = f)
            /\ ends_on hits r)
         (build_ranges hits m).
Proof.
  rewrite build_ranges_runs. unfold ranges_of. apply forall_omap.
  intros g r Hg Hr.
  pose proof (group_runs_wf (sorted_by_frame hits)) as Hwf.
  rewrite List.Forall_forall in Hwf. destruct (Hwf g Hg) as (Hn & Hc & Hi).
  assert (Hsub : forall h, In h g -> In h hits).
  { intros h Hh. apply in_sorted_by_frame. now apply Hi. }
  split.
  - intros f Hf. unfold inside in Hf.
    apply finalize_some in Hr as (_ & Hs & He & _). rewrite Hs, He in Hf.
    destruct (chain_covers g Hn Hc f Hf) as (h & Hh & Hfr). eauto.
  - apply finalize_ends in Hr as (a & Ha & E1 & E2 & E3 & E4).
    exists a, (List.last g a). repeat split; try (symmetry; assumption).
    + apply Hsub. destruct g; [discriminate|]. injection Ha as ->. now left.
    + apply Hsub. now apply last_in.
Qed.

(** X4.  With a minimum run length of at most one no detection is left
    out: the frame of every hit lies in one of the ranges. *)
Theorem build_ranges_covers_every_hit (hits : list BlackFrameHit) (m : Z)
    (h : BlackFrameHit) :
  m <= 1 -> In h hits ->
  exists r, In r (build_ranges hits m) /\ inside (frame h) r.
Proof.
  intros Hm Hh. rewrite build_ranges_runs. unfold ranges_of.
  apply in_sorted_by_frame in Hh.
  rewrite <- (group_runs_concat (sorted_by_frame hits)) in Hh.
  apply in_concat in Hh as (g & Hg & Hhg).
  pose proof (group_runs_wf (sorted_by_frame hits)) as Hwf.
  rewrite List.Forall_forall in Hwf. destruct (Hwf g Hg) as (Hn & Hc & _).
  destruct (finalize_kept m g Hn Hc Hm) as (r & Hr).
  exists r. split.
  - apply list_elem_of_In, list_elem_of_omap. exists g.
    split; [now apply list_elem_of_In|assumption].
  - unfold inside. apply finalize_some in Hr as (_ & -> & -> & _).
    now apply chain_bounds.
Qed.

Lemma build_ranges_covers_every_hit_witness :
  exists r, In r (build_ranges (map hit_at [7; 3; 4; 9]) 1)
            /\ inside (frame (hit_at 4)) r.
Proof.
  apply (build_ranges_covers_every_hit (map hit_at [7; 3; 4; 9]) 1 (hit_at 4)).
  - lia.
  - cbn. tauto.
Defined.

(** X5.  The lengths of the ranges never add up to more than the number
    of detections, and with a minimum run length of at most one they add
    up to exactly that number, repeated frames included. *)
Theorem build_ranges_lengths_add_up (hits : list BlackFrameHit) (m : Z) :
  total_length (build_ranges hits m) <= Z.of_nat (List.length hits)
  /\ (m <= 1 ->
      total_length (build_ranges hits m) = Z.of_nat (List.length hits)).
Proof.
  rewrite build_ranges_runs.
  rewrite <- (sorted_by_frame_length hits).
  rewrite <- (group_runs_concat (sorted_by_frame hits)) at 2 4.
  apply total_length_runs.
  eapply List.Forall_impl; [|apply group_runs_wf]. cbn beta. tauto.
Qed.

Lemma build_ranges_lengths_add_up_witness :
  total_length (build_ranges (map hit_at [5; 5; 6]) 1) = 3.
Proof.
  apply (proj2 (build_ranges_lengths_add_up (map hit_at [5; 5; 6]) 1)). lia.
Defined.

(** X6.  When no frame index occurs twice, the order in which the
    detections arrive does not matter: any rearrangement of the hits gives
    the same ranges. *)
Theorem build_ranges_order_irrelevant (hits hits' : list BlackFrameHit) (m : Z) :
  Permutation hits hits' -> List.NoDup (map frame hits) ->
  build_ranges hits m = build_ranges hits' m.
Proof.
  intros Hp Hnd. rewrite !build_ranges_runs. do 2 f_equal.
  apply sorted_lt_unique.
  - now apply sorted_by_frame_lt.
  - apply sorted_by_frame_lt.
    eapply Permutation_NoDup; [|exact Hnd]. now apply Permutation_map.
  - intros x. rewrite !in_sorted_by_frame.
    split; apply Permutation_in; [assumption|now symmetry].
Qed.

Lemma build_ranges_order_irrelevant_witness :
  build_ranges (map hit_at [7; 3; 4]) 1 = build_ranges (map hit_at [3; 4; 7]) 1.
Proof.
  apply (build_ranges_order_irrelevant (map hit_at [7; 3; 4]) (map hit_at [3; 4; 7]) 1).
  - cbn. apply perm_trans with (hit_at 3 :: hit_at 7 :: [hit_at 4]).
    + apply perm_swap.
    + apply perm_skip. apply perm_swap.
  - cbn. repeat constructor; cbn; intuition discriminate.
Defined.

(** *** Timestamps *)

Module TimestampFacts.
Import Timestamp.

Lemma digit_cases d :
  0 <= d < 10 ->
  d = 0 \/ d = 1 \/ d = 2 \/ d = 3 \/ d = 4 \/ d = 5 \/ d = 6 \/ d = 7
  \/ d = 8 \/ d = 9.
Proof. lia. Qed.

Lemma digit_char_value d : 0 <= d < 10 -> digit_value (digit_char d) = d.
Proof.
  intros H. destruct (digit_cases d H) as [->|[->|[->|[->|[->|[->|[->|[->|[->| ->]]]]]]]]];
    reflexivity.
Qed.

Lemma digit_char_digit d : 0 <= d < 10 -> is_digit (digit_char d) = true.
Proof.
  intros H. destruct (digit_cases d H) as [->|[->|[->|[->|[->|[->|[->|[->|[->| ->]]]]]]]]];
    reflexivity.
Qed.

Lemma fold_digits_shift ds : forall acc,
  fold_left (fun a c => 10 * a + digit_value c) ds acc
  = acc * 10 ^ Z.of_nat (List.length ds) + int_of_digits ds.
Proof.
  unfold int_of_digits. induction ds as [|c ds IH]; intros acc.
  - cbn. lia.
  - cbn [fold_left List.length]. rewrite IH, (IH (10 * 0 + digit_value c)).
    rewrite Nat2Z.inj_succ, Z.pow_succ_r by lia. lia.
Qed.

Lemma int_of_digits_cons c ds :
  int_of_digits (c :: ds)
  = digit_value c * 10 ^ Z.of_nat (List.length ds) + int_of_digits ds.
Proof.
  unfold int_of_digits at 1. cbn [fold_left]. rewrite fold_digits_shift. lia.
Qed.

(** The digits written for [n] read back as [n], and there are no more of
    them than [n] needs. *)
Lemma digits_from_spec fuel : forall n acc,
  0 <= n < 10 ^ Z.of_nat (S fuel) ->
  forallb is_digit acc = true ->
  let ds := digits_from (S fuel) n acc in
  int_of_digits ds = n * 10 ^ Z.of_nat (List.length acc) + int_of_digits acc
  /\ forallb is_digit ds = true
  /\ (List.length acc < List.length ds)%nat.
Proof.
  induction fuel as [|fuel IH]; intros n acc Hn Hacc; cbn zeta;
    change (digits_from (S ?f) n acc) with
      (if n <? 10 then digit_char (n mod 10) :: acc
       else digits_from f (n / 10) (digit_char (n mod 10) :: acc));
    assert (Hd : 0 <= n mod 10 < 10) by (apply Z.mod_pos_bound; lia);
    (destruct (Z.ltb_spec n 10) as [Hlt|Hge];
     [ rewrite int_of_digits_cons, (digit_char_value _ Hd);
       rewrite (Z.mod_small n 10) at 1 by lia;
       cbn [forallb List.length]; rewrite (digit_char_digit _ Hd), Hacc;
       repeat split; (reflexivity || lia) | ]).
  - cbn in Hn. lia.
  - rewrite Nat2Z.inj_succ, Z.pow_succ_r in Hn by lia.
    destruct (IH (n / 10) (digit_char (n mod 10) :: acc)) as (E1 & E2 & E3).
    { split; [apply Z.div_pos; lia|]. apply Z.div_lt_upper_bound; lia. }
    { cbn [forallb]. now rewrite (digit_char_digit _ Hd), Hacc. }
    cbn zeta in E1, E2, E3. rewrite E1, E2. cbn [List.length] in *.
    rewrite int_of_digits_cons, (digit_char_value _ Hd).
    rewrite Nat2Z.inj_succ, Z.pow_succ_r by lia.
    repeat split; try lia.
    pose proof (Z.div_mod n 10 ltac:(lia)) as Hdm.
    set (p := 10 ^ Z.of_nat (List.length acc)). nia.
Qed.

Lemma digits_from_length fuel : forall k n acc,
  0 <= n < 10 ^ Z.of_nat (S k) ->
  (List.length (digits_from fuel n acc) <= S k + List.length acc)%nat.
Proof.
  induction fuel as [|fuel IH]; intros k n acc Hn; cbn [digits_from]; [lia|].
  destruct (Z.ltb_spec n 10) as [Hlt|Hge]; [cbn [List.length]; lia|].
  destruct k as [|k]; [cbn in Hn; lia|].
  rewrite Nat2Z.inj_succ, Z.pow_succ_r in Hn by lia.
  specialize (IH k (n / 10) (digit_char (n mod 10) :: acc)).
  cbn [List.length] in IH. etransitivity; [apply IH|lia].
  split; [apply Z.div_pos; lia|]. apply Z.div_lt_upper_bound; lia.
Qed.

Lemma decimal_fuel n : 0 <= n -> n < 10 ^ Z.of_nat (S (Z.to_nat (Z.log2 n))).
Proof.
  intros Hn. rewrite Nat2Z.inj_succ, Z2Nat.id by apply Z.log2_nonneg.
  destruct (Z.eq_dec n 0) as [->|Hne]; [reflexivity|].
  pose proof (Z.log2_spec n ltac:(lia)) as [_ Hlt].
  eapply Z.lt_le_trans; [exact Hlt|].
  apply Z.pow_le_mono_l. lia.
Qed.

Lemma decimal_spec n :
  0 <= n ->
  int_of_digits (decimal n) = n
  /\ forallb is_digit (decimal n) = true
  /\ (1 <= List.length (decimal n))%nat.
Proof.
  intros Hn. unfold decimal.
  destruct (digits_from_spec (Z.to_nat (Z.log2 n)) n []) as (E1 & E2 & E3).
  { split; [assumption|now apply decimal_fuel]. }
  { reflexivity. }
  cbn zeta in E1, E2, E3. cbn [List.length] in E1, E3.
  split; [|split; [assumption|lia]].
  rewrite E1. change (int_of_digits []) with 0. cbn. lia.
Qed.

Lemma decimal_length k n :
  0 <= n < 10 ^ Z.of_nat (S k) -> (List.length (decimal n) <= S k)%nat.
Proof.
  intros Hn. unfold decimal.
  pose proof (digits_from_length (S (Z.to_nat (Z.log2 n))) k n [] Hn) as H.
  cbn [List.length] in H. lia.
Qed.

Lemma int_of_digits_zeros k ds :
  int_of_digits (repeat "0"%char k ++ ds) = int_of_digits ds.
Proof.
  induction k as [|k IH]; [reflexivity|].
  cbn [repeat app]. rewrite int_of_digits_cons, IH.
  change (digit_value "0") with 0. lia.
Qed.

Lemma zero_pad_spec w ds :
  forallb is_digit ds = true ->
  int_of_digits (zero_pad w ds) = int_of_digits ds
  /\ forallb is_digit (zero_pad w ds) = true
  /\ List.length (zero_pad w ds) = Nat.max w (List.length ds).
Proof.
  intros Hds. unfold zero_pad. rewrite int_of_digits_zeros.
  rewrite forallb_app, Hds, List.length_app, repeat_length.
  repeat split; [|lia].
  rewrite andb_true_r. induction (w - List.length ds)%nat; [reflexivity|assumption].
Qed.

(** A number that is not negative, written in at least [w] digits. *)
Lemma format_0d_field w n :
  0 <= n ->
  field w (format_0d w n) /\ int_of_digits (format_0d w n) = n.
Proof.
  intros Hn. unfold format_0d, field.
  destruct (Z.ltb_spec n 0); [lia|].
  destruct (decimal_spec n Hn) as (E1 & E2 & E3).
  destruct (zero_pad_spec w (decimal n) E2) as (F1 & F2 & F3).
  rewrite F1, F2, F3, E1. repeat split; lia.
Qed.

(** A number from zero to below ten to the [w], written in exactly [w]
    digits. *)
Lemma format_0d_exact w n :
  0 <= n < 10 ^ Z.of_nat (S w) ->
  List.length (format_0d (S w) n) = S w
  /\ forallb is_digit (format_0d (S w) n) = true
  /\ int_of_digits (format_0d (S w) n) = n.
Proof.
  intros Hn. unfold format_0d.
  destruct (Z.ltb_spec n 0); [lia|].
  destruct (decimal_spec n ltac:(lia)) as (E1 & E2 & E3).
  destruct (zero_pad_spec (S w) (decimal n) E2) as (F1 & F2 & F3).
  pose proof (decimal_length w n Hn).
  rewrite F1, F2, F3, E1. repeat split; lia.
Qed.

Lemma SFeqb_refl x : x <> S754_nan -> SFeqb x x = true.
Proof.
  destruct x as [s|s| |s m e]; intros Hx; try congruence;
    unfold SFeqb, SFcompare; try now destruct s.
  destruct s; rewrite Z.compare_refl, ?Pos.compare_cont_refl, ?Pos.compare_refl;
    reflexivity.
Qed.

Lemma is_nan_spec x : PrimFloat.is_nan x = true <-> Prim2SF x = S754_nan.
Proof.
  unfold PrimFloat.is_nan. rewrite FloatAxioms.eqb_spec. split.
  - intros H. destruct (Prim2SF x) eqn:E; try reflexivity;
      rewrite SFeqb_refl in H by discriminate; discriminate.
  - intros ->. reflexivity.
Qed.

Lemma is_infinity_spec x :
  PrimFloat.is_infinity x = true <-> exists s, Prim2SF x = S754_infinity s.
Proof.
  unfold PrimFloat.is_infinity. rewrite FloatAxioms.eqb_spec, FloatAxioms.abs_spec.
  change (Prim2SF infinity) with (S754_infinity false).
  destruct (Prim2SF x) as [s|s| |s m e]; cbn.
  - split; [discriminate|]. now intros (? & ?).
  - split; eauto.
  - split; [discriminate|]. now intros (? & ?).
  - split; [discriminate|]. now intros (? & ?).
Qed.

End TimestampFacts.

Import TimestampFacts.

(** X7.  A duration that rounds to [ms >= 0] milliseconds is written as
    hours, minutes, seconds and milliseconds, separated by two colons and
    a dot: two digits below 60 for the minutes and for the seconds, three
    digits for the milliseconds, two digits or more for the hours.  Read
    back, the four fields give [ms] again. *)
Theorem timestamp_reads_back (x : float) (ms : Z) :
  Timestamp.py_round (PrimFloat.mul x 1000) = Ok ms -> 0 <= ms ->
  exists hh mm ss mmm,
    Timestamp.seconds_to_hhmmssms (Some x)
    = Ok (hh ++ ":"%char :: mm ++ ":"%char :: ss ++ "."%char :: mmm)
    /\ Timestamp.field 2 hh
    /\ Timestamp.field_below 2 60 mm
    /\ Timestamp.field_below 2 60 ss
    /\ Timestamp.field_below 3 1000 mmm
    /\ ((int_of_digits hh * 60 + int_of_digits mm) * 60 + int_of_digits ss) * 1000
       + int_of_digits mmm = ms.
Proof.
  intros Hr Hms. unfold Timestamp.seconds_to_hhmmssms. rewrite Hr.
  cbn [mbind result_bind].
  set (ts := ms / 1000).
  assert (Hts : 0 <= ts) by (apply Z.div_pos; lia).
  assert (Hh : 0 <= ts / 3600) by (apply Z.div_pos; lia).
  assert (Hm : 0 <= ts mod 3600 / 60 < 10 ^ Z.of_nat 2).
  { change (10 ^ Z.of_nat 2) with 100.
    pose proof (Z.mod_pos_bound ts 3600 ltac:(lia)).
    split; [apply Z.div_pos; lia|apply Z.div_lt_upper_bound; lia]. }
  assert (Hs : 0 <= ts mod 60 < 10 ^ Z.of_nat 2).
  { change (10 ^ Z.of_nat 2) with 100.
    pose proof (Z.mod_pos_bound ts 60 ltac:(lia)). lia. }
  assert (Hl : 0 <= ms mod 1000 < 10 ^ Z.of_nat 3).
  { change (10 ^ Z.of_nat 3) with 1000. apply Z.mod_pos_bound. lia. }
  destruct (format_0d_field 2 (ts / 3600) Hh) as (A1 & A2).
  destruct (format_0d_exact 1 _ Hm) as (B1 & B2 & B3).
  destruct (format_0d_exact 1 _ Hs) as (C1 & C2 & C3).
  destruct (format_0d_exact 2 _ Hl) as (D1 & D2 & D3).
  eexists _, _, _, _. split; [reflexivity|].
  unfold Timestamp.field_below. rewrite A2, B3, C3, D3.
  split; [exact A1|].
  split.
  { split; [exact B1|]. split; [exact B2|].
    pose proof (Z.mod_pos_bound ts 3600 ltac:(lia)).
    apply Z.div_lt_upper_bound; lia. }
  split.
  { split; [exact C1|]. split; [exact C2|]. apply Z.mod_pos_bound. lia. }
  split.
  { split; [exact D1|]. split; [exact D2|]. apply Z.mod_pos_bound. lia. }
  unfold ts. Z.div_mod_to_equations. lia.
Qed.

Lemma timestamp_reads_back_witness :
  exists hh mm ss mmm,
    Timestamp.seconds_to_hhmmssms (Some 3725.5%float)
    = Ok (hh ++ ":"%char :: mm ++ ":"%char :: ss ++ "."%char :: mmm)
    /\ Timestamp.field 2 hh
    /\ Timestamp.field_below 2 60 mm
    /\ Timestamp.field_below 2 60 ss
    /\ Timestamp.field_below 3 1000 mmm
    /\ ((int_of_digits hh * 60 + int_of_digits mm) * 60 + int_of_digits ss) * 1000
       + int_of_digits mmm = 3725500.
Proof.
  apply (timestamp_reads_back 3725.5%float 3725500).
  - vm_compute. reflexivity.
  - lia.
Defined.

(** X8.  A missing time is written as [n/a].  Any other time gives a text
    unless its product with 1000 is a NaN, which raises [ValueError], or an
    infinity, which raises [OverflowError]; these are the cases, and the
    exceptions, that the window model keeps for the function. *)
Theorem timestamp_failures (x : float) (s : state) :
  Timestamp.seconds_to_hhmmssms None = Ok (txt "n/a")
  /\ (PrimFloat.is_nan (PrimFloat.mul x 1000) = true ->
      Timestamp.seconds_to_hhmmssms (Some x) = Raise ValueError)
  /\ (PrimFloat.is_infinity (PrimFloat.mul x 1000) = true ->
      Timestamp.seconds_to_hhmmssms (Some x) = Raise OverflowError)
  /\ (PrimFloat.is_nan (PrimFloat.mul x 1000) = false ->
      PrimFloat.is_infinity (PrimFloat.mul x 1000) = false ->
      exists t, Timestamp.seconds_to_hhmmssms (Some x) = Ok t)
  /\ escaped (Model.seconds_to_hhmmssms x) s
     = match Timestamp.seconds_to_hhmmssms (Some x) with
       | Ok _ => None
       | Raise e => Some e
       end.
Proof.
  split; [reflexivity|].
  unfold Timestamp.seconds_to_hhmmssms, Timestamp.py_round, Model.seconds_to_hhmmssms,
    escaped, raise, skip.
  set (y := PrimFloat.mul x 1000).
  pose proof (is_nan_spec y) as Hnan. pose proof (is_infinity_spec y) as Hinf.
  destruct (Prim2SF y) as [sg|sg| |sg m e] eqn:E.
  - destruct (PrimFloat.is_nan y); [now pose proof (proj1 Hnan eq_refl)|].
    destruct (PrimFloat.is_infinity y);
      [destruct (proj1 Hinf eq_refl) as (? & ?); discriminate|].
    repeat split; try discriminate; cbn; eauto.
  - destruct (PrimFloat.is_nan y); [now pose proof (proj1 Hnan eq_refl)|].
    rewrite (proj2 Hinf (ex_intro _ sg eq_refl)).
    repeat split; try discriminate; cbn; eauto.
  - rewrite (proj2 Hnan eq_refl).
    repeat split; try discriminate; cbn; eauto.
    intros H. destruct (proj1 Hinf H) as (? & ?). discriminate.
  - destruct (PrimFloat.is_nan y); [now pose proof (proj1 Hnan eq_refl)|].
    destruct (PrimFloat.is_infinity y);
      [destruct (proj1 Hinf eq_refl) as (? & ?); discriminate|].
    repeat split; try discriminate; cbn; eauto.
Qed.

Lemma timestamp_failures_witness :
  exists t, Timestamp.seconds_to_hhmmssms (Some 0.5%float) = Ok t.
Proof.
  apply (proj1 (proj2 (proj2 (proj2 (timestamp_failures 0.5%float (initial [])))))).
  - vm_compute. reflexivity.
  - vm_compute. reflexivity.
Defined.

(** *** The detection parser *)

Module ParseFacts.
Import LineFormat.
















End ParseFacts.

Import LineFormat ParseFacts.





(** *** Slots in sequence *)

Module LoopFacts.
Import EventLoop.

#[local] Arguments _parse_blackframe_line : simpl never.
#[local] Arguments _split_complete_lines : simpl never.
#[local] Arguments rstrip : simpl never.
#[local] Arguments sorted_by_frame : simpl never.
#[local] Arguments build_ranges : simpl never.
#[local] Arguments Nat.min : simpl never.
#[local] Arguments take : simpl never.
#[local] Arguments drop : simpl never.






Lemma progress_only_refl s : progress_only s s.
Proof.
  exists (_stdout_buf s), (progress_value s), (progress_format s). now destruct s.
Qed.

Lemma progress_only_trans s1 s2 s3 :
  progress_only s1 s2 -> progress_only s2 s3 -> progress_only s1 s3.
Proof.
  intros (b & v & f & ->) (b' & v' & f' & ->). exists b', v', f'. now destruct s1.
Qed.

Lemma progress_only_value v s : progress_only s (set_progress_value v s).
Proof. exists (_stdout_buf s), v, (progress_format s). now destruct s. Qed.

Lemma progress_only_format f s : progress_only s (set_progress_format f s).
Proof. exists (_stdout_buf s), (progress_value s), f. now destruct s. Qed.

Lemma progress_only_buf b s : progress_only s (set_stdout_buf b s).
Proof. exists b, (progress_value s), (progress_format s). now destruct s. Qed.

Lemma eta_footprint now frac s :
  progress_only s (snd (_update_progress_eta now frac s)).
Proof.
  unfold _update_progress_eta. run.
  destruct (_analysis_start_time s) as [t0|]; [|apply progress_only_refl].
  destruct (PrimFloat.leb frac 0); [apply progress_only_refl|].
  destruct (PrimFloat.ltb _ _); [apply progress_only_refl|].
  destruct (_file_queue s !! _current_queue_index s); [|apply progress_only_refl].
  destruct (float_truediv _ frac) as [e|]; [|apply progress_only_refl].
  cbn beta iota.
  destruct (PrimFloat.is_finite _); [|apply progress_only_refl]. cbn beta iota.
  destruct (int_of_float _); [apply progress_only_format|apply progress_only_refl].
Qed.

Lemma stdout_line_footprint now line s :
  progress_only s (snd (stdout_line now line s)).
Proof.
  unfold stdout_line. run.
  assert (Hv : forall v f, progress_only s
                 (set_progress_format f (set_progress_value v s))).
  { intros v f. eapply progress_only_trans;
      [apply progress_only_value|apply progress_only_format]. }
  destruct (match_progress_end line), (duration_known_positive s),
    (_file_queue s !! _current_queue_index s);
    (destruct (match_out_time_ms line) as [g|];
     [destruct (video_duration_s s) as [d|];
      [destruct (float_truthy d && PrimFloat.ltb 0 d);
       [destruct (fraction_of d g) as [frac|];
        [cbn beta iota; destruct (int_of_float _) as [v|];
         [cbn beta iota; eapply progress_only_trans;
          [apply (progress_only_value v)|apply eta_footprint]|]|]|]|]|]);
    cbn [snd];
    first [apply progress_only_refl | apply progress_only_value | apply Hv].
Qed.

Lemma stdout_lines_footprint now ls : forall s,
  progress_only s (snd (for_each (stdout_line now) ls s)).
Proof.
  induction ls as [|l ls IH]; intros s; [apply progress_only_refl|].
  cbn [for_each]. unfold mbind, M_bind.
  pose proof (stdout_line_footprint now l s) as H1.
  destruct (stdout_line now l s) as [[[]|e] s1]; cbn [snd] in *; [|exact H1].
  eapply progress_only_trans; [exact H1|apply IH].
Qed.

(** The output-stream slot writes its buffer and the progress bar, and
    nothing else, also when an exception escapes it. *)
Lemma stdout_chunk_footprint now chunk s :
  progress_only s (exec (_on_ffmpeg_stdout_chunk now chunk) s).
Proof.
  unfold _on_ffmpeg_stdout_chunk. run.
  destruct (ffmpeg_proc s); [|apply progress_only_refl].
  destruct (_split_complete_lines _) as [lines rest]. run.
  eapply progress_only_trans; [apply (progress_only_buf rest)|].
  apply stdout_lines_footprint.
Qed.





(** **** Views a slot keeps *)

Section Keeps.

Context {V : Type} (view : state -> V).

Lemma keeps_bind {A B : Type} (m : M A) (k : A -> M B) :
  keeps view m -> (forall a, keeps view (k a)) -> keeps view (m ≫= k).
Proof.
  intros Hm Hk s. unfold mbind, M_bind. specialize (Hm s).
  destruct (m s) as [[a|e] s1]; cbn [snd] in *; [|exact Hm].
  now rewrite Hk.
Qed.

Lemma keeps_modify (f : state -> state) :
  (forall s, view (f s) = view s) -> keeps view (modify f).
Proof. intros H s. apply H. Qed.

Lemma keeps_get : keeps view get.
Proof. now intros s. Qed.

Lemma keeps_skip : keeps view skip.
Proof. now intros s. Qed.

Lemma keeps_raise {A : Type} (e : exn) : keeps view (@raise A e).
Proof. now intros s. Qed.

Lemma keeps_lift {A : Type} (r : result A) : keeps view (lift r).
Proof. now intros s. Qed.

Lemma keeps_ret {A : Type} (a : A) : keeps view (mret a : M A).
Proof. now intros s. Qed.

Lemma keeps_try body handler :
  keeps view body -> keeps view handler -> keeps view (try_except body handler).
Proof.
  intros Hb Hh s. unfold try_except. specialize (Hb s).
  destruct (body s) as [[[]|e] s1]; cbn [snd] in *; [exact Hb|].
  now rewrite Hh.
Qed.

Lemma keeps_for_each {A : Type} (f : A -> M unit) (xs : list A) :
  (forall x, keeps view (f x)) -> keeps view (for_each f xs).
Proof.
  intros Hf. induction xs as [|x xs IH]; [apply keeps_skip|].
  cbn [for_each]. apply keeps_bind; [apply Hf|now intros _].
Qed.

End Keeps.

(** Assignments that leave the view alone, in sequence. *)
Ltac keeps :=
  repeat first
    [ apply keeps_skip | apply keeps_get | apply keeps_raise | apply keeps_lift
    | apply keeps_ret
    | apply keeps_modify; now intros []
    | apply keeps_bind; [|intros ?]
    | apply keeps_for_each; intros ?
    | match goal with
      | |- keeps _ (match ?x with _ => _ end) => destruct x
      | |- keeps _ (let '(_, _) := ?x in _) => destruct x
      end ].

Section KeptBySlots.

Context {V : Type} (view : state -> V).

(** The view does not look at what the streams and the probe report
    write. *)
Hypothesis blind : forall s,
  (forall x, view (set_hits x s) = view s)
  /\ (forall x, view (set_pending_hits x s) = view s)
  /\ (forall x, view (set_stderr_buf x s) = view s)
  /\ (forall x, view (set_stdout_buf x s) = view s)
  /\ (forall x, view (set_frames_table x s) = view s)
  /\ (forall x, view (set_progress_value x s) = view s)
  /\ (forall x, view (set_progress_format x s) = view s)
  /\ (forall x, view (set_video_duration_s x s) = view s)
  /\ (forall x, view (set_video_fps x s) = view s)
  /\ (forall x, view (set_total_video_duration_s x s) = view s).

Ltac blindly :=
  repeat first
    [ apply keeps_skip | apply keeps_get | apply keeps_raise | apply keeps_lift
    | apply keeps_ret
    | apply keeps_modify; intros ?; apply blind
    | apply keeps_bind; [|intros ?]
    | apply keeps_for_each; intros ?
    | match goal with
      | |- keeps _ (match ?x with _ => _ end) => destruct x
      | |- keeps _ (let '(_, _) := ?x in _) => destruct x
      end ].

Lemma keeps_flush_pending : keeps view _flush_pending_hits.
Proof. unfold _flush_pending_hits. blindly. Qed.

Lemma keeps_stderr_line l : keeps view (stderr_line l).
Proof. unfold stderr_line, record_hit. blindly. Qed.

Lemma keeps_stderr_tail : keeps view flush_stderr_tail.
Proof.
  unfold flush_stderr_tail.
  blindly; first [apply keeps_stderr_line | apply keeps_flush_pending].
Qed.

Lemma keeps_stderr_chunk chunk : keeps view (_on_ffmpeg_stderr_chunk chunk).
Proof. unfold _on_ffmpeg_stderr_chunk. blindly; apply keeps_stderr_line. Qed.

Lemma keeps_stdout_chunk now chunk : keeps view (_on_ffmpeg_stdout_chunk now chunk).
Proof.
  intros s. change (snd (_on_ffmpeg_stdout_chunk now chunk s))
    with (exec (_on_ffmpeg_stdout_chunk now chunk) s).
  destruct (stdout_chunk_footprint now chunk s) as (b & v & f & ->).
  etransitivity; [apply blind|]. etransitivity; [apply blind|]. apply blind.
Qed.

Lemma keeps_read_probe_report jl sf out : keeps view (read_probe_report jl sf out).
Proof.
  unfold read_probe_report, read_duration, read_frame_rate. blindly.
Qed.

Lemma keeps_probe_report_guarded jl sf out :
  keeps view
    (try_except (read_probe_report jl sf out)
       (modify (set_video_duration_s None);; modify (set_video_fps None))).
Proof. apply keeps_try; [apply keeps_read_probe_report|blindly]. Qed.



End KeptBySlots.

Lemma flags_blind s :
  (forall x, flags (set_hits x s) = flags s)
  /\ (forall x, flags (set_pending_hits x s) = flags s)
  /\ (forall x, flags (set_stderr_buf x s) = flags s)
  /\ (forall x, flags (set_stdout_buf x s) = flags s)
  /\ (forall x, flags (set_frames_table x s) = flags s)
  /\ (forall x, flags (set_progress_value x s) = flags s)
  /\ (forall x, flags (set_progress_format x s) = flags s)
  /\ (forall x, flags (set_video_duration_s x s) = flags s)
  /\ (forall x, flags (set_video_fps x s) = flags s)
  /\ (forall x, flags (set_total_video_duration_s x s) = flags s).
Proof. destruct s. repeat split. Qed.

(** **** The flags *)

Lemma keeps_steps {A : Type} (m : M A) : keeps flags m -> steps_flags m.
Proof. intros H s. left. apply H. Qed.

Lemma steps_bind {A B : Type} (m : M A) (k : A -> M B) :
  keeps flags m -> (forall a, steps_flags (k a)) -> steps_flags (m ≫= k).
Proof.
  intros Hm Hk s. unfold mbind, M_bind. specialize (Hm s).
  destruct (m s) as [[a|e] s1]; cbn [snd] in *; [|now left].
  specialize (Hk a s1). unfold flags_step in *. now rewrite <- Hm.
Qed.

Lemma steps_all_finished now : steps_flags (_on_all_files_finished now).
Proof.
  intros s. destruct (all_files_finished_closes now s _ eq_refl) as (E1 & E2 & _).
  right; left. unfold flags. unfold exec in E1, E2. now rewrite E1, E2.
Qed.

Lemma steps_start_next now : steps_flags (_start_next_file now).
Proof.
  unfold _start_next_file. apply steps_bind; [apply keeps_get|]. intros s0.
  destruct (_ <=? _)%nat; [apply steps_all_finished|].
  apply keeps_steps. unfold _run_ffprobe. keeps.
Qed.

Lemma steps_record_failure now path label :
  steps_flags (_record_failure_and_advance now path label).
Proof.
  unfold _record_failure_and_advance, _mark_list_item_failed, _append_status_line.
  repeat (apply steps_bind;
          [first [apply keeps_get | apply keeps_modify; now intros []]|intros ?]).
  destruct (_queue_active _); [apply steps_start_next|apply keeps_steps, keeps_skip].
Qed.

Lemma steps_store_results now path : steps_flags (store_results now path).
Proof.
  unfold store_results, _append_status_line.
  repeat (apply steps_bind;
          [first [apply keeps_get | apply keeps_modify; now intros []]|intros ?]).
  destruct (_ && _); [apply steps_start_next|apply steps_all_finished].
Qed.

Lemma steps_ffmpeg_finished now path code :
  steps_flags (_on_ffmpeg_finished now path code).
Proof.
  unfold _on_ffmpeg_finished.
  apply steps_bind; [apply keeps_modify; now intros []|intros _].
  apply steps_bind; [apply (keeps_flush_pending flags flags_blind)|intros _].
  apply steps_bind; [apply (keeps_stderr_tail flags flags_blind)|intros _].
  destruct (negb _); [apply steps_record_failure|apply steps_store_results].
Qed.

Lemma steps_run_ffmpeg started now path : steps_flags (_run_ffmpeg started now path).
Proof.
  unfold _run_ffmpeg, _set_progress_determinate.
  apply steps_bind; [apply keeps_get|intros s0].
  apply steps_bind; [destruct (duration_known_positive s0); keeps|intros _].
  apply steps_bind; [apply keeps_modify; now intros []|intros _].
  apply steps_bind; [apply keeps_modify; now intros []|intros _].
  destruct (negb started); [apply steps_record_failure|].
  apply keeps_steps. keeps.
Qed.

Lemma steps_ffprobe_finished jl sf started now path code out :
  steps_flags (_on_ffprobe_finished jl sf started now path code out).
Proof.
  unfold _on_ffprobe_finished.
  apply steps_bind; [apply keeps_get|intros s0].
  destruct (probe_proc s0); [|apply keeps_steps, keeps_skip].
  destruct (_ || _); [apply steps_record_failure|].
  apply steps_bind; [|intros _; apply steps_run_ffmpeg].
  apply (keeps_probe_report_guarded flags flags_blind).
Qed.

Lemma steps_cancel : steps_flags _cancel.
Proof.
  intros s. right; left.
  unfold _cancel, _finalize_exports_state, _set_running_ui. run. now destruct s.
Qed.

Lemma steps_start on_disk now : steps_flags (_start on_disk now).
Proof.
  intros s. unfold _start, _set_running_ui, _set_progress_determinate. run.
  destruct (List.filter _ _) as [|p q]; [now left|].
  match goal with
  | |- context [_start_next_file now ?x] =>
      pose proof (steps_start_next now x) as H;
      assert (E : flags x = (true, true)) by now destruct s
  end.
  unfold flags_step in *. rewrite E in H. tauto.
Qed.

Lemma steps_call jl sf c : steps_flags (call jl sf c).
Proof.
  destruct c; cbn [call].
  - unfold on_start_or_cancel. apply steps_bind; [apply keeps_get|intros s0].
    destruct (_running s0); [apply steps_cancel|apply steps_start].
  - apply steps_ffprobe_finished.
  - apply keeps_steps, (keeps_stdout_chunk flags flags_blind).
  - apply keeps_steps, (keeps_stderr_chunk flags flags_blind).
  - apply keeps_steps, (keeps_flush_pending flags flags_blind).
  - apply steps_ffmpeg_finished.
Qed.

End LoopFacts.

Import EventLoop LoopFacts.


(** X12.  The output-stream slot writes the output-stream buffer and the
    value and text of the progress bar, and nothing else: hits, results,
    queue and tables are as before, also when an exception escapes the
    slot. *)
Theorem stdout_slot_writes_progress_only (now : float) (chunk : str) (s : state) :
  let s' := exec (_on_ffmpeg_stdout_chunk now chunk) s in
  progress_only s s'
  /\ hits s' = hits s /\ _pending_hits s' = _pending_hits s
  /\ _stderr_buf s' = _stderr_buf s
  /\ all_hits s' = all_hits s /\ all_ranges s' = all_ranges s
  /\ _file_queue s' = _file_queue s
  /\ _current_queue_index s' = _current_queue_index s
  /\ _queue_active s' = _queue_active s /\ _running s' = _running s
  /\ frames_table s' = frames_table s /\ ranges_table s' = ranges_table s.
Proof.
  cbn zeta. pose proof (stdout_chunk_footprint now chunk s) as H.
  split; [exact H|]. destruct H as (b & v & f & ->).
  destruct s. repeat split.
Qed.



(** X14.  Whatever slots are called, with whatever arguments and in
    whatever order, the window is in its running state exactly while the
    queue is active: the button reads Cancel if and only if a cancel would
    find an active queue. *)
Theorem running_iff_queue_active (jl : str -> option json)
    (sf : str -> option float) (cs : list slot_call) (s : state) :
  _running s = _queue_active s ->
  _running (run_calls jl sf cs s) = _queue_active (run_calls jl sf cs s).
Proof.
  revert s. induction cs as [|c cs IH]; intros s Hs; [exact Hs|].
  cbn [run_calls fold_left]. apply IH.
  destruct (steps_call jl sf c s) as [H|[H|H]]; unfold flags, exec in *.
  - injection H as -> ->. exact Hs.
  - injection H as -> ->. reflexivity.
  - injection H as -> ->. reflexivity.
Qed.

Lemma running_iff_queue_active_witness :
  _running (run_calls (fun _ => None) (fun _ => None)
              [StartOrCancel (fun _ => true) 100;
               ProbeFinished true 101 "a.mp4" 1 [];
               StartOrCancel (fun _ => true) 102]
              (initial ["a.mp4"; "b.mp4"]%string))
  = _queue_active
      (run_calls (fun _ => None) (fun _ => None)
         [StartOrCancel (fun _ => true) 100;
          ProbeFinished true 101 "a.mp4" 1 [];
          StartOrCancel (fun _ => true) 102]
         (initial ["a.mp4"; "b.mp4"]%string)).
Proof.
  apply (running_iff_queue_active (fun _ => None) (fun _ => None)
           [StartOrCancel (fun _ => true) 100;
            ProbeFinished true 101 "a.mp4" 1 [];
            StartOrCancel (fun _ => true) 102]
           (initial ["a.mp4"; "b.mp4"]%string)).
  reflexivity.
Defined.

(** *** A batch from start to end *)

Module BatchRun.
Import EventLoop Batch.

#[local] Arguments _parse_blackframe_line : simpl never.
#[local] Arguments _split_complete_lines : simpl never.
#[local] Arguments rstrip : simpl never.
#[local] Arguments sorted_by_frame : simpl never.
#[local] Arguments build_ranges : simpl never.
#[local] Arguments Nat.min : simpl never.
#[local] Arguments take : simpl never.
#[local] Arguments drop : simpl never.
#[local] Arguments rows_of : simpl never.
#[local] Arguments total_len : simpl never.
#[local] Arguments _start_next_file : simpl never.
#[local] Arguments _on_all_files_finished : simpl never.
#[local] Arguments _record_failure_and_advance : simpl never.
#[local] Arguments store_results : simpl never.
#[local] Arguments _run_ffmpeg : simpl never.
#[local] Arguments _flush_pending_hits : simpl never.
#[local] Arguments flush_stderr_tail : simpl never.

Lemma probe_only_refl s : probe_only s s.
Proof.
  exists (video_duration_s s), (video_fps s), (_total_video_duration_s s).
  now destruct s.
Qed.

Lemma probe_only_trans s1 s2 s3 :
  probe_only s1 s2 -> probe_only s2 s3 -> probe_only s1 s3.
Proof.
  intros (d & f & t & ->) (d' & f' & t' & ->). exists d', f', t'. now destruct s1.
Qed.

Lemma wpo_bind {A B : Type} (m : M A) (k : A -> M B) :
  writes_probe_only m -> (forall a, writes_probe_only (k a)) ->
  writes_probe_only (m ≫= k).
Proof.
  intros Hm Hk s. unfold mbind, M_bind. specialize (Hm s).
  destruct (m s) as [[a|e] s1]; cbn [snd] in *; [|exact Hm].
  eapply probe_only_trans; [exact Hm|apply Hk].
Qed.

Lemma wpo_pure {A : Type} (r : result A) : writes_probe_only (lift r).
Proof. intros s. apply probe_only_refl. Qed.

Lemma wpo_get : writes_probe_only get.
Proof. intros s. apply probe_only_refl. Qed.

Lemma wpo_skip : writes_probe_only skip.
Proof. intros s. apply probe_only_refl. Qed.

Lemma wpo_duration d : writes_probe_only (modify (set_video_duration_s d)).
Proof.
  intros s. exists d, (video_fps s), (_total_video_duration_s s). now destruct s.
Qed.

Lemma wpo_fps f : writes_probe_only (modify (set_video_fps f)).
Proof.
  intros s. exists (video_duration_s s), f, (_total_video_duration_s s).
  now destruct s.
Qed.

Lemma wpo_total t : writes_probe_only (modify (set_total_video_duration_s t)).
Proof.
  intros s. exists (video_duration_s s), (video_fps s), t. now destruct s.
Qed.

Lemma wpo_read_probe_report jl sf out :
  writes_probe_only (read_probe_report jl sf out).
Proof.
  unfold read_probe_report, read_duration, read_frame_rate.
  repeat first
    [ apply wpo_pure | apply wpo_get | apply wpo_skip | apply wpo_duration
    | apply wpo_fps | apply wpo_total
    | apply wpo_bind; [|intros ?]
    | match goal with
      | |- writes_probe_only (match ?x with _ => _ end) => destruct x
      end ].
Qed.

(** The [try] block of the probe slot: no exception escapes it, and it
    writes the duration, the frame rate and the total duration only. *)
Lemma probe_report_guarded jl sf out s :
  exists s1,
    try_except (read_probe_report jl sf out)
      (modify (set_video_duration_s None);; modify (set_video_fps None)) s
    = (Ok tt, s1)
    /\ probe_only s s1
    /\ (fst (read_probe_report jl sf out s) <> Ok tt ->
        video_duration_s s1 = None /\ video_fps s1 = None).
Proof.
  unfold try_except. pose proof (wpo_read_probe_report jl sf out s) as H.
  destruct (read_probe_report jl sf out s) as [[[]|e] s0]; cbn [fst snd] in *.
  - exists s0. split; [reflexivity|]. split; [exact H|]. congruence.
  - run. eexists. split; [reflexivity|]. split.
    + eapply probe_only_trans; [exact H|].
      eapply probe_only_trans; [apply (wpo_duration None)|apply (wpo_fps None)].
    + intros _. now destruct s0.
Qed.




(** The analysis process came up: the state it leaves. *)
Lemma run_ffmpeg_started_eq now path s :
  _run_ffmpeg true now path s
  = (Ok tt,
     set_flush_timer true
       (set_analysis_start_time (Some now)
          (set_progress_format
             (FmtAnalyzing (S (_current_queue_index s))
                (List.length (_file_queue s)) path (duration_truthy s))
             (set_ffmpeg_proc (Some (mkProcess path false))
                (set_progress_value
                   (if duration_known_positive s then 0 else progress_value s)
                   (set_progress_determinate (duration_known_positive s) s)))))).
Proof.
  unfold _run_ffmpeg, _set_progress_determinate. run.
  destruct (duration_known_positive s) eqn:E; cbn beta iota; now destruct s.
Qed.

(** **** Rows and counts *)









Section Stages.

Context (files : list string) (g : bool) (m : Z).







(** A probe that gave output: the analysis is started on what the report
    says, or on nothing when the report cannot be read. *)
Lemma probe_ok_reduces jl sf started now path out s :
  probe_proc s <> None -> strip_space out <> [] ->
  exists s1,
    probe_only s s1
    /\ (fst (read_probe_report jl sf (strip_space out) s) <> Ok tt ->
        video_duration_s s1 = None /\ video_fps s1 = None)
    /\ _on_ffprobe_finished jl sf started now path 0 out s
       = _run_ffmpeg started now path s1.
Proof.
  intros Hp Hout. unfold _on_ffprobe_finished. run.
  destruct (probe_proc s); [|congruence].
  destruct (strip_space out) as [|c o] eqn:E; [congruence|].
  cbn [Z.eqb negb truthy orb].
  destruct (probe_report_guarded jl sf (c :: o) s) as (s1 & E1 & H1 & H2).
  exists s1. split; [exact H1|]. split; [exact H2|].
  change ((try_except (read_probe_report jl sf (c :: o))
             (modify (set_video_duration_s None);; modify (set_video_fps None))
           ≫= (fun _ => _run_ffmpeg started now path)) s
          = _run_ffmpeg started now path s1).
  now erewrite bind_ok by exact E1.
Qed.






End Stages.





End BatchRun.

Import Batch BatchRun.







(** X18.  A probe report that cannot be read does not stop the file.
    When the probe exits with code 0 and some output, and reading the
    report raises, whatever the exception, the analysis is started all the
    same: with duration and frame rate unknown, the progress bar
    indeterminate and its text without a percentage, the flush timer
    running, and no exception escaping the slot. *)
Theorem unreadable_report_still_analysed (jl : str -> option json)
    (sf : str -> option float) (now : float) (path : string) (out : str)
    (s : state) :
  probe_proc s <> None -> strip_space out <> [] ->
  fst (read_probe_report jl sf (strip_space out) s) <> Ok tt ->
  let s' := exec (_on_ffprobe_finished jl sf true now path 0 out) s in
  video_duration_s s' = None /\ video_fps s' = None
  /\ progress_determinate s' = false
  /\ ffmpeg_proc s' = Some (mkProcess path false)
  /\ flush_timer s' = true /\ _analysis_start_time s' = Some now
  /\ progress_format s'
     = FmtAnalyzing (S (_current_queue_index s)) (List.length (_file_queue s))
         path false
  /\ escaped (_on_ffprobe_finished jl sf true now path 0 out) s = None.
Proof.
  intros Hp Hout Hraise s'. subst s'. unfold exec, escaped.
  destruct (probe_ok_reduces jl sf true now path out s Hp Hout)
    as (s1 & (d & f & t & E1) & Hnone & ->).
  destruct (Hnone Hraise) as [Hd Hf].
  rewrite run_ffmpeg_started_eq. cbn [fst snd].
  assert (Hk : duration_known_positive s1 = false)
    by (unfold duration_known_positive; now rewrite Hd).
  assert (Ht : duration_truthy s1 = false)
    by (unfold duration_truthy; now rewrite Hd).
  rewrite Hk, Ht.
  split; [exact Hd|]. split; [exact Hf|].
  subst s1. repeat split.
Qed.

Lemma unreadable_report_still_analysed_witness :
  progress_determinate
    (exec (_on_ffprobe_finished (fun _ => None) float_of_numeral true 101
             "a.mp4" 0 (txt "not json"))
          (exec (_start (fun _ => true) 100) (initial ["a.mp4"%string])))
  = false.
Proof.
  refine (proj1 (proj2 (proj2
            (unreadable_report_still_analysed (fun _ => None) float_of_numeral
               101 "a.mp4" (txt "not json")
               (exec (_start (fun _ => true) 100) (initial ["a.mp4"%string]))
               _ _ _)))).
  - vm_compute. discriminate.
  - vm_compute. discriminate.
  - vm_compute. discriminate.
Defined.


(** X19.  A report that gives a duration but no list of streams: the
    duration is added to the total of the batch before reading the frame
    rate raises, and it stays there, while the file itself goes on with
    its duration unknown and the progress bar indeterminate. *)
Theorem duration_counted_before_report_fails (jl : str -> option json)
    (sf : str -> option float) (now : float) (path : string) (out : str)
    (items fitems : list (str * json)) (v : json) (d : float) (s : state) :
  probe_proc s <> None -> strip_space out <> [] ->
  jl (strip_space out) = Some (JDict items) ->
  dict_lookup (txt "format") items = Some (JDict fitems) ->
  dict_lookup (txt "duration") fitems = Some v -> v <> JNull ->
  py_float sf v = Ok d -> float_truthy d = true ->
  dict_lookup (txt "streams") items = None ->
  let s' := exec (_on_ffprobe_finished jl sf true now path 0 out) s in
  _total_video_duration_s s' = PrimFloat.add (_total_video_duration_s s) d
  /\ video_duration_s s' = None
  /\ progress_determinate s' = false
  /\ ffmpeg_proc s' = Some (mkProcess path false).
Proof.
  intros Hp Hout Hjl Hf Hdur Hv Hd Ht Hs. cbn zeta.
  remember (exec (_on_ffprobe_finished jl sf true now path 0 out) s) as s' eqn:Es.
  unfold exec, _on_ffprobe_finished in Es. revert Es. run.
  destruct (probe_proc s); [|congruence].
  destruct (strip_space out) as [|c o] eqn:E; [congruence|].
  cbn [Z.eqb negb truthy orb].
  assert (Er : read_probe_report jl sf (c :: o) s
               = (Raise KeyError,
                  set_total_video_duration_s
                    (PrimFloat.add (_total_video_duration_s s) d)
                    (set_video_duration_s (Some d) s))).
  { unfold read_probe_report, read_duration, read_frame_rate. run.
    cbn in Hf, Hdur, Hs.
    rewrite Hjl. cbn. rewrite Hf. cbn. rewrite Hdur. cbn.
    assert (Ed : match v with JNull => Ok None | _ => Some <$> py_float sf v end
                 = Ok (Some d)).
    { destruct v; try congruence; rewrite Hd; reflexivity. }
    rewrite Ed. cbn. rewrite Ht. cbn. rewrite Hs. reflexivity. }
  unfold try_except. run. rewrite Er. cbn.
  rewrite run_ffmpeg_started_eq. cbn [snd].
  intros ->. repeat split.
Qed.

Lemma duration_counted_before_report_fails_witness :
  _total_video_duration_s
    (exec (_on_ffprobe_finished
             (fun _ => Some (JDict [(txt "format",
                                     JDict [(txt "duration", JStr (txt "5.0"))])]))
             float_of_numeral true 101 "a.mp4" 0 (txt "{}"))
          (exec (_start (fun _ => true) 100) (initial ["a.mp4"%string])))
  = PrimFloat.add
      (_total_video_duration_s
         (exec (_start (fun _ => true) 100) (initial ["a.mp4"%string])))
      5.
Proof.
  refine (proj1
            (duration_counted_before_report_fails
               (fun _ => Some (JDict [(txt "format",
                                       JDict [(txt "duration", JStr (txt "5.0"))])]))
               float_of_numeral 101 "a.mp4" (txt "{}")
               [(txt "format", JDict [(txt "duration", JStr (txt "5.0"))])]
               [(txt "duration", JStr (txt "5.0"))] (JStr (txt "5.0")) 5
               (exec (_start (fun _ => true) 100) (initial ["a.mp4"%string]))
               _ _ _ _ _ _ _ _ _)).
  - vm_compute. discriminate.
  - vm_compute. discriminate.
  - reflexivity.
  - vm_compute. reflexivity.
  - vm_compute. reflexivity.
  - discriminate.
  - vm_compute. reflexivity.
  - vm_compute. reflexivity.
  - vm_compute. reflexivity.
Defined.

Module FileFacts.

Import EventLoop LoopFacts Files.

Section FileSystem.

Context (is_dir is_file : string -> result bool)
        (rglob_sorted : string -> result (list string))
        (suffix_lower : string -> string)
        (resolve : string -> result string).

#[local] Abbreviation take_file := (take_file is_file suffix_lower resolve).
#[local] Abbreviation fs_raised := (fs_raised is_dir is_file rglob_sorted resolve).
#[local] Abbreviation found := (found is_file suffix_lower resolve).

Lemma take_file_spec c acc acc' :
  take_file c acc = Ok acc' -> tidy acc ->
  tidy acc' /\ (forall r, r ∈ snd acc' <-> r ∈ snd acc \/ found [c] r)
  /\ exists more, snd acc' = snd acc ++ more.
Proof.
  unfold Files.take_file. intros H [Hn Hs].
  destruct (is_file c) as [f|e] eqn:Ef; [|discriminate]. cbn in H.
  destruct (f && is_video suffix_lower c) eqn:Ev.
  2:{ injection H as <-. split; [now split|]. split; [|exists []; now rewrite app_nil_r].
      intros r. split; [now left|]. intros [Hr|(c' & Hc & Hf & Hv & _)]; [exact Hr|].
      apply list_elem_of_singleton in Hc. subst c'.
      rewrite Hf in Ef. injection Ef as <-. rewrite Hv in Ev. discriminate. }
  apply andb_true_iff in Ev as [-> Ev].
  destruct (resolve c) as [r0|e] eqn:Er; [|discriminate]. cbn in H.
  destruct (bool_decide (r0 ∈ fst acc)) eqn:Eb; injection H as <-.
  - apply bool_decide_eq_true in Eb.
    split; [now split|]. split; [|exists []; now rewrite app_nil_r].
    intros r. split; [now left|]. intros [Hr|(c' & Hc & _ & _ & Hr)]; [exact Hr|].
    apply list_elem_of_singleton in Hc. subst c'.
    rewrite Hr in Er. injection Er as <-. now apply Hs.
  - apply bool_decide_eq_false in Eb. unfold tidy. cbn [fst snd].
    split; [split|split; [|now exists [r0]]].
    + apply NoDup_app. split; [exact Hn|]. split; [|apply NoDup_singleton].
      intros x Hx Hx'. apply list_elem_of_singleton in Hx'. subst x.
      apply Eb. now apply Hs.
    + intros r. rewrite elem_of_union, elem_of_singleton, elem_of_app,
        list_elem_of_singleton, Hs. tauto.
    + intros r. rewrite elem_of_app, list_elem_of_singleton. split.
      * intros [Hr| ->]; [now left|]. right. exists c.
        split; [now apply list_elem_of_singleton|]. now repeat split.
      * intros [Hr|(c' & Hc & _ & _ & Hr)]; [now left|]. right.
        apply list_elem_of_singleton in Hc. subst c'.
        rewrite Hr in Er. now injection Er.
Qed.

Lemma found_cons c cs r : found (c :: cs) r <-> found [c] r \/ found cs r.
Proof.
  unfold Files.found. split.
  - intros (c' & Hc & H). apply elem_of_cons in Hc as [-> | Hc].
    + left. exists c. split; [apply list_elem_of_here|exact H].
    + right. now exists c'.
  - intros [(c' & Hc & H)|(c' & Hc & H)]; exists c'; (split; [|exact H]).
    + apply list_elem_of_singleton in Hc. subst c'. apply list_elem_of_here.
    + now apply list_elem_of_further.
Qed.

Lemma children_spec cs : forall acc acc',
  for_result take_file cs acc = Ok acc' -> tidy acc ->
  tidy acc' /\ (forall r, r ∈ snd acc' <-> r ∈ snd acc \/ found cs r)
  /\ exists more, snd acc' = snd acc ++ more.
Proof.
  induction cs as [|c cs IH]; intros acc acc' H Ht.
  - injection H as <-. split; [exact Ht|]. split; [|exists []; now rewrite app_nil_r].
    intros r. split; [now left|]. intros [Hr|(c & Hc & _)]; [exact Hr|].
    now apply elem_of_nil in Hc.
  - cbn [for_result] in H.
    destruct (take_file c acc) as [acc1|e] eqn:E1; [|discriminate]. cbn in H.
    destruct (take_file_spec _ _ _ E1 Ht) as (Ht1 & H1 & (m1 & Hm1)).
    destruct (IH _ _ H Ht1) as (Ht2 & H2 & (m2 & Hm2)).
    split; [exact Ht2|]. split.
    + intros r. rewrite H2, H1, (found_cons c cs). tauto.
    + exists (m1 ++ m2). now rewrite Hm2, Hm1, app_assoc.
Qed.

#[local] Abbreviation looked_at := (looked_at is_dir rglob_sorted).
#[local] Abbreviation visit := (visit is_dir is_file rglob_sorted suffix_lower resolve).

Lemma found_in cs r : found cs r <-> exists c, c ∈ cs /\ found [c] r.
Proof.
  split.
  - intros (c & Hc & H). exists c. split; [exact Hc|]. exists c.
    split; [apply list_elem_of_here|exact H].
  - intros (c & Hc & c' & Hc' & H). apply list_elem_of_singleton in Hc'. subst c'.
    now exists c.
Qed.

Lemma looked_at_cons p ps c :
  looked_at (p :: ps) c <->
  (c = p /\ is_dir p = Ok false)
  \/ (exists cs, is_dir p = Ok true /\ rglob_sorted p = Ok cs /\ c ∈ cs)
  \/ looked_at ps c.
Proof.
  unfold Files.looked_at. split.
  - intros [[Hc Hd]|(q & qs & Hq & Hd & Hg & Hc)].
    + apply elem_of_cons in Hc as [-> | Hc]; [now left|]. right; right; left.
      now split.
    + apply elem_of_cons in Hq as [-> | Hq].
      * right; left. now exists qs.
      * right; right; right. now exists q, qs.
  - intros [[-> Hd]|[(cs & Hd & Hg & Hc)|[[Hc Hd]|(q & qs & Hq & Hd & Hg & Hc)]]].
    + left. split; [apply list_elem_of_here|exact Hd].
    + right. exists p, cs. split; [apply list_elem_of_here|now repeat split].
    + left. split; [now apply list_elem_of_further|exact Hd].
    + right. exists q, qs. split; [now apply list_elem_of_further|now repeat split].
Qed.

Lemma paths_spec paths : forall acc acc',
  for_result visit paths acc = Ok acc' -> tidy acc ->
  tidy acc'
  /\ (forall r, r ∈ snd acc' <->
        r ∈ snd acc \/ exists c, looked_at paths c /\ found [c] r).
Proof.
  induction paths as [|p ps IH]; intros acc acc' H Ht.
  - injection H as <-. split; [exact Ht|].
    intros r. split; [now left|].
    intros [Hr|(c & [[Hc _]|(p & cs & Hp & _)] & _)]; [exact Hr| |];
      exfalso; eapply elem_of_nil; eassumption.
  - cbn [for_result] in H.
    destruct (visit p acc) as [acc1|e0] eqn:Ev; cbn [mbind result_bind] in H;
      [|discriminate].
    unfold Files.visit in Ev.
    destruct (is_dir p) as [[]|e] eqn:Ed; cbn [mbind result_bind] in Ev;
      [| |discriminate].
    + destruct (rglob_sorted p) as [cs|e] eqn:Eg; cbn [mbind result_bind] in Ev;
        [|discriminate].
      destruct (children_spec _ _ _ Ev Ht) as (Ht1 & H1 & _).
      destruct (IH _ _ H Ht1) as (Ht2 & H2).
      split; [exact Ht2|]. intros r. rewrite H2, H1, found_in. split.
      * intros [[Hr|(c & Hc & Hf)]|(c & Hl & Hf)]; [now left| |].
        -- right. exists c. split; [|exact Hf]. apply looked_at_cons.
           right; left. now exists cs.
        -- right. exists c. split; [|exact Hf]. apply looked_at_cons. now right; right.
      * intros [Hr|(c & Hl & Hf)]; [now left; left|].
        apply looked_at_cons in Hl as [[_ Hd]|[(cs' & _ & Hg & Hc)|Hl]].
        -- rewrite Hd in Ed. discriminate.
        -- rewrite Hg in Eg. injection Eg as ->. left; right. now exists c.
        -- right. now exists c.
    + destruct (take_file_spec _ _ _ Ev Ht) as (Ht1 & H1 & _).
      destruct (IH _ _ H Ht1) as (Ht2 & H2).
      split; [exact Ht2|]. intros r. rewrite H2, H1. split.
      * intros [[Hr|Hf]|(c & Hl & Hf)]; [now left| |].
        -- right. exists p. split; [|exact Hf]. apply looked_at_cons. now left.
        -- right. exists c. split; [|exact Hf]. apply looked_at_cons. now right; right.
      * intros [Hr|(c & Hl & Hf)]; [now left; left|].
        apply looked_at_cons in Hl as [[-> _]|[(cs' & Hd & _)|Hl]].
        -- now left; right.
        -- rewrite Hd in Ed. discriminate.
        -- right. now exists c.
Qed.

Lemma take_file_raise c acc e : take_file c acc = Raise e -> fs_raised e.
Proof.
  unfold Files.take_file, Files.fs_raised. intros H. exists c.
  destruct (is_file c) as [f|e1] eqn:Ef; cbn [mbind result_bind] in H.
  2:{ injection H as ->. now right; left. }
  destruct (f && is_video suffix_lower c); [|discriminate].
  destruct (resolve c) as [r0|e1] eqn:Er; cbn [mbind result_bind] in H.
  2:{ injection H as ->. now right; right; right. }
  destruct (bool_decide _); discriminate.
Qed.

Lemma children_raise cs : forall acc e,
  for_result take_file cs acc = Raise e -> fs_raised e.
Proof.
  induction cs as [|c cs IH]; intros acc e H; [discriminate|].
  cbn [for_result] in H.
  destruct (take_file c acc) as [acc1|e1] eqn:E1; cbn [mbind result_bind] in H.
  - now apply IH in H.
  - injection H as ->. now apply take_file_raise in E1.
Qed.

Lemma paths_raise paths : forall acc e,
  for_result visit paths acc = Raise e -> fs_raised e.
Proof.
  induction paths as [|p ps IH]; intros acc e H; [discriminate|].
  cbn [for_result] in H.
  destruct (visit p acc) as [acc1|e0] eqn:Ev; cbn [mbind result_bind] in H.
  { now apply IH in H. }
  injection H as ->. unfold Files.visit in Ev.
  destruct (is_dir p) as [[]|e1] eqn:Ed; cbn [mbind result_bind] in Ev.
  - destruct (rglob_sorted p) as [cs|e1] eqn:Eg; cbn [mbind result_bind] in Ev.
    + now apply children_raise in Ev.
    + injection Ev as ->. exists p. now right; right; left.
  - now apply take_file_raise in Ev.
  - injection Ev as ->. exists p. now left.
Qed.

End FileSystem.

(** **** The file list *)

Lemma listed_app l more s :
  listed (set_file_list (l ++ map plain more) s) = map item_path l ++ more.
Proof.
  unfold listed. destruct s. cbn. rewrite map_app, map_map. cbn.
  now rewrite map_id.
Qed.

Lemma add_new_spec paths : forall existing s,
  (forall p, p ∈ existing <-> p ∈ listed s) ->
  exists more,
    add_new paths existing s
    = (Ok tt, set_file_list (file_list s ++ map plain more) s)
    /\ NoDup more
    /\ forall p, p ∈ more <-> p ∈ paths /\ p ∉ listed s.
Proof.
  induction paths as [|p ps IH]; intros existing s He.
  - exists []. cbn [add_new map]. rewrite app_nil_r.
    split; [now destruct s|]. split; [apply NoDup_nil_2|].
    intros p. rewrite elem_of_nil. tauto.
  - cbn [add_new]. destruct (bool_decide (p ∈ existing)) eqn:Eb.
    + apply bool_decide_eq_true in Eb. destruct (IH existing s He) as (more & E & Hn & Hm).
      exists more. split; [exact E|]. split; [exact Hn|].
      intros q. rewrite Hm, elem_of_cons. split; [tauto|].
      intros [[-> | Hq] Hnot]; [|tauto]. exfalso. apply Hnot. now apply He.
    + apply bool_decide_eq_false in Eb.
      set (s1 := set_file_list (file_list s ++ [plain p]) s).
      assert (H1 : listed s1 = listed s ++ [p])
        by apply (listed_app (file_list s) [p] s).
      destruct (IH ({[p]} ∪ existing) s1) as (more & E & Hn & Hm).
      { intros q. rewrite H1, elem_of_union, elem_of_singleton, elem_of_app,
          list_elem_of_singleton, He. tauto. }
      exists (p :: more). split; [|split].
      * unfold mbind, M_bind, modify. fold s1. cbn beta iota.
        change (add_new ps ({[p]} ∪ existing) s1
                = (Ok tt, set_file_list (file_list s ++ map plain (p :: more)) s)).
        rewrite E. f_equal. subst s1. destruct s. cbn.
        now rewrite <- app_assoc.
      * apply NoDup_cons. split; [|exact Hn].
        intros Hp. apply Hm in Hp as [_ Hp]. apply Hp. rewrite H1, elem_of_app,
          list_elem_of_singleton. now right.
      * intros q. rewrite elem_of_cons, Hm, H1, elem_of_app, list_elem_of_singleton,
          elem_of_cons.
        split.
        -- intros [-> | [Hq Hnot]]; [|tauto]. split; [now left|].
           intros Hp. apply Eb. now apply He.
        -- intros [[-> | Hq] Hnot]; [now left|].
           destruct (decide (q = p)) as [-> | Hne]; [now left|]. right. tauto.
Qed.

Lemma add_files_effect paths s :
  exists more,
    _add_files_to_list paths s
    = (Ok tt, set_file_list (file_list s ++ map plain more) s)
    /\ NoDup more
    /\ forall p, p ∈ more <-> p ∈ paths /\ p ∉ listed s.
Proof.
  unfold _add_files_to_list. unfold mbind, M_bind, get. cbn beta iota.
  apply add_new_spec. intros p. now rewrite elem_of_list_to_set.
Qed.

Lemma listed_distinct_after more s :
  NoDup (listed s) -> NoDup more -> (forall p, p ∈ more -> p ∉ listed s) ->
  NoDup (listed (set_file_list (file_list s ++ map plain more) s)).
Proof.
  intros Hs Hm Hd. rewrite listed_app. apply NoDup_app.
  split; [exact Hs|]. split; [|exact Hm].
  intros p Hp Hp'. now apply (Hd p Hp').
Qed.

(** **** What the slots keep of the list and the queue *)

Lemma listed_alter f i l :
  (forall x, item_path (f x) = item_path x) ->
  map item_path (alter f i l) = map item_path l.
Proof.
  intros Hf. revert i. induction l as [|x l IH]; intros [|i]; cbn; try reflexivity.
  - now rewrite Hf.
  - f_equal. apply IH.
Qed.

Lemma shelf_blind s :
  (forall x, shelf (set_hits x s) = shelf s)
  /\ (forall x, shelf (set_pending_hits x s) = shelf s)
  /\ (forall x, shelf (set_stderr_buf x s) = shelf s)
  /\ (forall x, shelf (set_stdout_buf x s) = shelf s)
  /\ (forall x, shelf (set_frames_table x s) = shelf s)
  /\ (forall x, shelf (set_progress_value x s) = shelf s)
  /\ (forall x, shelf (set_progress_format x s) = shelf s)
  /\ (forall x, shelf (set_video_duration_s x s) = shelf s)
  /\ (forall x, shelf (set_video_fps x s) = shelf s)
  /\ (forall x, shelf (set_total_video_duration_s x s) = shelf s).
Proof. destruct s. repeat split. Qed.

Lemma shelf_all_finished now : keeps shelf (_on_all_files_finished now).
Proof.
  unfold _on_all_files_finished, _set_running_ui, _set_progress_determinate,
    _render_all_frames_table, _render_all_ranges_table, _append_status_line,
    _finalize_exports_state, Model.seconds_to_hhmmssms.
  keeps.
Qed.

Lemma shelf_start_next now : keeps shelf (_start_next_file now).
Proof.
  unfold _start_next_file. apply keeps_bind; [apply keeps_get|]. intros s0.
  destruct (_ <=? _)%nat; [apply shelf_all_finished|].
  unfold _run_ffprobe. keeps.
Qed.

Lemma shelf_mark i label : keeps shelf (_mark_list_item_failed i label).
Proof.
  unfold _mark_list_item_failed. apply keeps_modify. intros s.
  unfold shelf, listed. destruct s. cbn. f_equal. now apply listed_alter.
Qed.

Lemma shelf_record_failure now path label :
  keeps shelf (_record_failure_and_advance now path label).
Proof.
  unfold _record_failure_and_advance, _append_status_line.
  repeat (apply keeps_bind;
          [first [apply keeps_get | apply shelf_mark
                 | apply keeps_modify; now intros []]|intros ?]).
  destruct (_queue_active _); [apply shelf_start_next|apply keeps_skip].
Qed.

Lemma shelf_store_results now path : keeps shelf (store_results now path).
Proof.
  unfold store_results, _append_status_line.
  do 6 (apply keeps_bind; [apply keeps_modify; now intros []|intros ?]).
  intros s. unfold mbind at 1, M_bind at 1, get. cbn beta iota.
  unfold mbind at 1, M_bind at 1, modify at 1. cbn beta iota.
  match goal with
  | |- shelf (snd (?rest ?x)) = _ =>
      assert (Hrest : keeps shelf rest); [|rewrite (Hrest x)]
  end.
  - apply keeps_bind; [apply keeps_modify; now intros []|intros _].
    apply keeps_bind; [apply keeps_modify; now intros []|intros _].
    destruct (_ && _); [apply shelf_start_next|apply shelf_all_finished].
  - unfold shelf, listed. destruct s. cbn. f_equal. now apply listed_alter.
Qed.

Lemma shelf_ffmpeg_finished now path code :
  keeps shelf (_on_ffmpeg_finished now path code).
Proof.
  unfold _on_ffmpeg_finished.
  apply keeps_bind; [apply keeps_modify; now intros []|intros _].
  apply keeps_bind; [apply (keeps_flush_pending shelf shelf_blind)|intros _].
  apply keeps_bind; [apply (keeps_stderr_tail shelf shelf_blind)|intros _].
  destruct (negb _); [apply shelf_record_failure|apply shelf_store_results].
Qed.

Lemma shelf_run_ffmpeg started now path : keeps shelf (_run_ffmpeg started now path).
Proof.
  unfold _run_ffmpeg, _set_progress_determinate.
  apply keeps_bind; [apply keeps_get|intros s0].
  apply keeps_bind; [destruct (duration_known_positive s0); keeps|intros _].
  apply keeps_bind; [apply keeps_modify; now intros []|intros _].
  apply keeps_bind; [apply keeps_modify; now intros []|intros _].
  destruct (negb started); [apply shelf_record_failure|]. keeps.
Qed.

Lemma shelf_ffprobe_finished jl sf started now path code out :
  keeps shelf (_on_ffprobe_finished jl sf started now path code out).
Proof.
  unfold _on_ffprobe_finished.
  apply keeps_bind; [apply keeps_get|intros s0].
  destruct (probe_proc s0); [|apply keeps_skip].
  destruct (_ || _); [apply shelf_record_failure|].
  apply keeps_bind; [|intros _; apply shelf_run_ffmpeg].
  apply (keeps_probe_report_guarded shelf shelf_blind).
Qed.

Lemma shelf_cancel : keeps shelf _cancel.
Proof. unfold _cancel, _finalize_exports_state, _set_running_ui. keeps. Qed.

Lemma start_shelf on_disk now s :
  shelf (exec (_start on_disk now) s) = shelf s
  \/ shelf (exec (_start on_disk now) s) = (listed s, startable on_disk (listed s)).
Proof.
  unfold exec, _start, _set_running_ui, _set_progress_determinate. run.
  fold (listed s). fold (startable on_disk (listed s)).
  destruct (startable on_disk (listed s)) as [|p q] eqn:Eq; [now left|]. right.
  match goal with
  | |- context [_start_next_file now ?x] => rewrite (shelf_start_next now x)
  end.
  unfold shelf, listed. destruct s. cbn. f_equal.
  rewrite map_map. cbn. reflexivity.
Qed.

Lemma call_shelf jl sf c s :
  shelf (exec (call jl sf c) s) = shelf s
  \/ exists on_disk,
       shelf (exec (call jl sf c) s) = (listed s, startable on_disk (listed s)).
Proof.
  destruct c; cbn [call].
  - unfold exec, on_start_or_cancel. unfold mbind, M_bind, get. cbn beta iota.
    destruct (_running s); [left; apply shelf_cancel|].
    destruct (start_shelf on_disk now s) as [H|H]; [now left|right; now exists on_disk].
  - left. apply shelf_ffprobe_finished.
  - left. apply (keeps_stdout_chunk shelf shelf_blind).
  - left. apply (keeps_stderr_chunk shelf shelf_blind).
  - left. apply (keeps_flush_pending shelf shelf_blind).
  - left. apply shelf_ffmpeg_finished.
Qed.

Lemma startable_distinct on_disk l : NoDup l -> NoDup (startable on_disk l).
Proof.
  intros H. apply NoDup_ListNoDup. apply List.NoDup_filter. now apply NoDup_ListNoDup.
Qed.

End FileFacts.

Import Files FileFacts.

(** X20.  [collect_video_files] returns each resolved path once: the
    list has no repeats and holds exactly the resolved paths of the video
    files among the paths given (those that are no folders) and the
    children of the folders given.  It raises only what the file system
    raised. *)
Theorem collect_video_files_each_once
    (is_dir is_file : string -> result bool)
    (rglob_sorted : string -> result (list string))
    (suffix_lower : string -> string) (resolve : string -> result string)
    (paths : list string) :
  match collect_video_files is_dir is_file rglob_sorted suffix_lower resolve
          paths with
  | Ok l =>
      NoDup l
      /\ forall r, r ∈ l <->
           exists c, looked_at is_dir rglob_sorted paths c
                     /\ is_file c = Ok true
                     /\ suffix_lower c ∈ VIDEO_EXTENSIONS
                     /\ resolve c = Ok r
  | Raise e =>
      exists c, is_dir c = Raise e \/ is_file c = Raise e
                \/ rglob_sorted c = Raise e \/ resolve c = Raise e
  end.
Proof.
  unfold collect_video_files.
  destruct (for_result _ paths (∅, [])) as [acc|e] eqn:E; cbn [fmap result_fmap].
  - assert (Ht : tidy (∅ : gset string, @nil string)).
    { split; [apply NoDup_nil_2|]. intros r. cbn [fst snd].
      rewrite elem_of_nil. split; [|tauto]. apply not_elem_of_empty. }
    destruct (paths_spec _ _ _ _ _ paths _ _ E Ht) as ([Hn _] & Hm).
    split; [exact Hn|]. intros r. rewrite Hm. cbn [snd]. rewrite elem_of_nil.
    split.
    + intros [[]|(c & Hl & c' & Hc & Hf & Hv & Hr)].
      apply list_elem_of_singleton in Hc. subst c'. exists c.
      split; [exact Hl|]. split; [exact Hf|]. split; [|exact Hr].
      now apply bool_decide_eq_true in Hv.
    + intros (c & Hl & Hf & Hv & Hr). right. exists c. split; [exact Hl|].
      exists c. split; [apply list_elem_of_here|]. split; [exact Hf|].
      split; [|exact Hr]. now apply bool_decide_eq_true.
  - exact (paths_raise _ _ _ _ _ paths _ _ E).
Qed.

(** X21.  [_add_files_to_list] appends the paths not yet listed, each
    once and in the order given, and touches nothing else; no exception
    escapes.  A list without repeated paths stays without, every path
    given is listed afterwards, and adding the same paths again changes
    nothing. *)
Theorem add_files_appends_new_once (paths : list string) (s : state) :
  NoDup (listed s) ->
  let s' := exec (_add_files_to_list paths) s in
  escaped (_add_files_to_list paths) s = None
  /\ (exists more,
        s' = set_file_list
               (file_list s ++ map (fun p => mkItem p NotePlain false) more) s
        /\ NoDup more
        /\ forall p, p ∈ more <-> p ∈ paths /\ p ∉ listed s)
  /\ NoDup (listed s')
  /\ (forall p, p ∈ listed s' <-> p ∈ listed s \/ p ∈ paths)
  /\ exec (_add_files_to_list paths) s' = s'.
Proof.
  intros Hs. cbn zeta. unfold exec, escaped.
  destruct (add_files_effect paths s) as (more & E & Hn & Hm). rewrite E.
  cbn [fst snd]. split; [reflexivity|].
  split; [exists more; split; [reflexivity|split; [exact Hn|exact Hm]]|].
  split; [apply listed_distinct_after; [exact Hs|exact Hn|intros p Hp; now apply Hm]|].
  assert (Hl : forall p,
             p ∈ listed (set_file_list (file_list s ++ map plain more) s)
             <-> p ∈ listed s \/ p ∈ paths).
  { intros p. rewrite listed_app. fold (listed s). rewrite elem_of_app, Hm.
    destruct (decide (p ∈ listed s)); tauto. }
  split; [exact Hl|].
  destruct (add_files_effect paths
              (set_file_list (file_list s ++ map plain more) s))
    as (more' & E' & _ & Hm').
  rewrite E'. cbn [snd].
  assert (Hnil : more' = []).
  { destruct more' as [|q more']; [reflexivity|]. exfalso.
    destruct (proj1 (Hm' q) (list_elem_of_here _ _)) as [Hq Hnot].
    apply Hnot, Hl. now right. }
  rewrite Hnil. cbn [map]. rewrite app_nil_r. now destruct s.
Qed.

Lemma add_files_appends_new_once_witness :
  NoDup (listed (exec (_add_files_to_list ["b.mp4"; "a.mp4"; "b.mp4"]%string)
                      (initial ["a.mp4"%string]))).
Proof.
  refine (proj1 (proj2 (proj2
            (add_files_appends_new_once ["b.mp4"; "a.mp4"; "b.mp4"]%string
               (initial ["a.mp4"%string]) _)))).
  apply NoDup_singleton.
Defined.

(** X22.  No slot of the analysis adds, removes or reorders files: after
    any sequence of slot calls the file list shows the same paths in the
    same order. *)
Theorem analysis_keeps_listed_paths (jl : str -> option json)
    (sf : str -> option float) (cs : list slot_call) (s : state) :
  map item_path (file_list (run_calls jl sf cs s)) = map item_path (file_list s).
Proof.
  revert s. induction cs as [|c cs IH]; intros s; [reflexivity|].
  unfold run_calls in *. cbn [fold_left]. rewrite IH.
  change (listed (exec (call jl sf c) s) = listed s).
  destruct (call_shelf jl sf c s) as [H|(f & H)];
    now apply (f_equal fst) in H.
Qed.

(** X23.  No file is analysed twice in a batch: when the paths of the
    file list and those of the queue are distinct (as in an empty
    window), they stay distinct whatever is dropped, browsed or cleared
    and whatever slots run in between. *)
Theorem no_file_twice
    (is_dir is_file : string -> result bool)
    (rglob_sorted : string -> result (list string))
    (suffix_lower : string -> string) (resolve : string -> result string)
    (jl : str -> option json) (sf : str -> option float)
    (es : list window_event) (s : state) :
  NoDup (listed s) -> NoDup (_file_queue s) ->
  let s' := run_events is_dir is_file rglob_sorted suffix_lower resolve jl sf
              es s in
  NoDup (listed s') /\ NoDup (_file_queue s').
Proof.
  cbn zeta. revert s. induction es as [|e es IH]; intros s Hl Hq; [now split|].
  unfold run_events in *. cbn [fold_left].
  assert (Hadd : forall paths,
             let s1 := exec (add_collected is_dir is_file rglob_sorted
                               suffix_lower resolve paths) s in
             NoDup (listed s1) /\ NoDup (_file_queue s1)).
  { intros paths. cbn zeta. unfold exec, add_collected.
    unfold mbind, M_bind, lift. cbn beta.
    destruct (collect_video_files _ _ _ _ _ paths) as [vp|e1]; cbn beta iota;
      [|now split].
    destruct (nonempty vp); [|now split].
    destruct (add_files_effect vp s) as (more & E & Hn & Hm). rewrite E. cbn [snd].
    split; [apply listed_distinct_after;
            [exact Hl|exact Hn|intros p Hp; now apply Hm]|].
    now destruct s. }
  apply IH; destruct e as [c|urls|paths|folder|]; cbn [happen].
  - destruct (call_shelf jl sf c s) as [H|(f & H)];
      apply (f_equal fst) in H; cbn [fst shelf] in H; now rewrite H.
  - unfold dropEvent, exec. unfold mbind at 1, M_bind at 1, get. cbn beta iota.
    destruct (_running s); [exact Hl|]. destruct (nonempty _); [apply Hadd|exact Hl].
  - unfold on_browse. destruct (nonempty _); [apply Hadd|exact Hl].
  - unfold on_browse_folder. destruct (negb _); [apply Hadd|exact Hl].
  - unfold on_clear_files, exec, modify. cbn [snd]. unfold listed.
    destruct s. cbn. apply NoDup_nil_2.
  - destruct (call_shelf jl sf c s) as [H|(f & H)];
      apply (f_equal snd) in H; cbn [snd shelf] in H; rewrite H; [exact Hq|].
    now apply startable_distinct.
  - unfold dropEvent, exec. unfold mbind at 1, M_bind at 1, get. cbn beta iota.
    destruct (_running s); [exact Hq|]. destruct (nonempty _); [apply Hadd|exact Hq].
  - unfold on_browse. destruct (nonempty _); [apply Hadd|exact Hq].
  - unfold on_browse_folder. destruct (negb _); [apply Hadd|exact Hq].
  - unfold on_clear_files, exec, modify. cbn [snd]. now destruct s.
Qed.

Lemma no_file_twice_witness :
  NoDup (_file_queue
           (run_events (fun _ => Ok false) (fun _ => Ok true) (fun _ => Ok [])
              (fun _ => ".mp4"%string) Ok (fun _ => None) (fun _ => None)
              [Dropped [(true, "a.mp4"%string); (true, "a.mp4"%string)];
               Slot (StartOrCancel (fun _ => true) 100)]
              (initial []))).
Proof.
  refine (proj2
            (no_file_twice (fun _ => Ok false) (fun _ => Ok true) (fun _ => Ok [])
               (fun _ => ".mp4"%string) Ok (fun _ => None) (fun _ => None)
               [Dropped [(true, "a.mp4"%string); (true, "a.mp4"%string)];
                Slot (StartOrCancel (fun _ => true) 100)]
               (initial []) _ _)).
  - apply NoDup_nil_2.
  - apply NoDup_nil_2.
Defined.
